(** * bin2mif: binary stream to memory-initialization-file converter

    A shallow embedding of [bin2mif.c] (the getopt-based revision) and the
    properties of its word-aligned reader, record emitter, depth
    resolution and process exit status.

    Conventions of the embedding.
    - C integers are [Z]; unsigned arithmetic wraps ([to_size_t],
      [to_ull], [to_byte]); signed overflow, division by zero and
      accesses outside an array are undefined behaviour in C and are
      reported as a [Fault].
    - A byte is a [Z] in [0, 256).
    - The file descriptors are modelled by what is behind them: the input
      by a [stream] (the bytes still to come and a script of how the next
      [read] calls behave), the output by a [sink] (the text written so
      far and how many more [dprintf] calls succeed).
    - The contents of uninitialised automatic arrays are indeterminate:
      they are a parameter ([junk]) of the function that declares them. *)

From Stdlib Require Import ZArith List String Ascii Bool Lia.
Import ListNotations.
Open Scope Z_scope.

(** ** Integer types *)

Definition UINT8_MAX : Z := 255.
Definition SSIZE_MAX : Z := 2 ^ 63 - 1.
Definition LLONG_MAX : Z := 2 ^ 63 - 1.
Definition LLONG_MIN : Z := - 2 ^ 63.

Definition to_byte (z : Z) : Z := z mod 256.
Definition to_size_t (z : Z) : Z := z mod 2 ^ 64.
Definition to_ull (z : Z) : Z := z mod 2 ^ 64.

(** ** Outcomes of a C computation *)

Inductive fault : Type :=
| DivisionByZero
| OutOfBounds
| SignedOverflow
| OutOfFuel.

Inductive outcome (A : Type) : Type :=
| Done (a : A)
| Fault (why : fault).

Arguments Done {A} a.
Arguments Fault {A} why.

Definition bind {A B : Type} (m : outcome A) (k : A -> outcome B) : outcome B :=
  match m with
  | Done a => k a
  | Fault w => Fault w
  end.

Notation "x <- m ;; k" := (bind m (fun x => k))
  (at level 61, m at next level, right associativity).

(** Signed 64-bit results ([long long], [ssize_t]). *)
Definition signed64 (z : Z) : outcome Z :=
  if (LLONG_MIN <=? z) && (z <=? LLONG_MAX) then Done z else Fault SignedOverflow.

(** C's [/] and [%] truncate towards zero. *)
Definition c_div (a b : Z) : outcome Z :=
  if b =? 0 then Fault DivisionByZero else Done (Z.quot a b).

Definition c_mod (a b : Z) : outcome Z :=
  if b =? 0 then Fault DivisionByZero else Done (Z.rem a b).

(** ** Memory: arrays of bytes *)

Definition len (l : list Z) : Z := Z.of_nat (List.length l).

(** Bytes [0 .. n) of [src]. *)
Definition load (src : list Z) (n : Z) : outcome (list Z) :=
  if n <=? 0 then Done []
  else if n <=? len src then Done (firstn (Z.to_nat n) src)
  else Fault OutOfBounds.

(** Overwrite [dest] from offset [off] with [bs]; nothing is touched when
    [bs] is empty. *)
Definition store (dest : list Z) (off : Z) (bs : list Z) : outcome (list Z) :=
  match bs with
  | [] => Done dest
  | _ =>
    if (0 <=? off) && (off + len bs <=? len dest)
    then Done (firstn (Z.to_nat off) dest ++ bs
               ++ skipn (Z.to_nat (off + len bs)) dest)
    else Fault OutOfBounds
  end.

(** [memcpy (dest + off, src, n)]. *)
Definition memcpy (dest : list Z) (off : Z) (src : list Z) (n : Z)
  : outcome (list Z) :=
  bs <- load src n ;;
  store dest off bs.

(** ** The input: [read] *)

Inductive rd_event : Type :=
| RdError                (* the call returns -1 *)
| RdAtMost (n : Z).      (* a short read: at most [max 1 n] bytes *)

Inductive stat_info : Type :=
| StatFails              (* fstat returns -1 *)
| StatOther              (* not a regular file: pipe, terminal, ... *)
| StatRegular (size : Z).

Record stream : Type := mkStream {
  pending : list Z;          (* the bytes not yet read *)
  script : list rd_event;    (* behaviour of the next read calls *)
  stat : stat_info
}.

(** [read (fd, _, count)]: [None] for a negative return, otherwise the
    bytes transferred. Once the script is used up every call transfers
    as much as it can. *)
Definition sys_read (fd : stream) (count : Z) : option (list Z) * stream :=
  match script fd with
  | RdError :: rest => (None, mkStream (pending fd) rest (stat fd))
  | RdAtMost n :: rest =>
    let k := Z.to_nat (Z.min count (Z.max 1 n)) in
    (Some (firstn k (pending fd)), mkStream (skipn k (pending fd)) rest (stat fd))
  | [] =>
    let k := Z.to_nat count in
    (Some (firstn k (pending fd)), mkStream (skipn k (pending fd)) [] (stat fd))
  end.

(** ** Utilities *)

(** [read_aligned]. The pointer arguments are the addresses of the
    caller's arrays (never NULL at the only call site), so the NULL tests
    of the first [if] are true and only [*remainder_len > 0] is left.
    [ra_dest] is the array behind [dest] after the call, [ra_rem] the new
    [*remainder_len]. *)
Record ra_out : Type := mkRa {
  ra_ret : Z;
  ra_dest : list Z;
  ra_rem : Z;
  ra_in : stream
}.

Definition read_aligned (fd : stream) (dest : list Z) (nwords word_size : Z)
  (put_aside : list Z) (remainder_len : Z) : outcome ra_out :=
  let nbytes := to_size_t (nwords * word_size) in
  (* if (... && *remainder_len > 0) { memcpy; dest += *remainder_len; } *)
  st <- (if 0 <? remainder_len
         then d <- memcpy dest 0 put_aside remainder_len ;; Done (d, remainder_len)
         else Done (dest, 0)) ;;
  let '(dest1, off) := st in
  let '(got, fd') := sys_read fd (to_size_t (nbytes - remainder_len)) in
  match got with
  | None => Done (mkRa (-1) dest1 remainder_len fd')
  | Some bs =>
    dest2 <- store dest1 off bs ;;
    bytes_read <- signed64 (len bs + remainder_len) ;;
    words_read <- c_div bytes_read word_size ;;
    r <- c_mod bytes_read word_size ;;
    let remainder_len' := to_byte r in
    (* memcpy(dest + nbytes - *remainder_len, put_aside, *remainder_len) *)
    dest3 <- memcpy dest2 (off + nbytes - remainder_len') put_aside remainder_len' ;;
    Done (mkRa words_read dest3 remainder_len' fd')
  end.

(** [num_len]: the loop runs at most 64 times for a 64-bit [num] and a
    base of 2 or more. *)
Fixpoint num_len_loop (fuel : nat) (num base len : Z) : outcome Z :=
  if 0 <? num then
    match fuel with
    | O => Fault OutOfFuel
    | S fuel' => num_len_loop fuel' (num / base) base (len + 1)
    end
  else Done (len mod 2 ^ 32).

Definition num_len (num base : Z) : outcome Z :=
  if base =? 0 then Fault DivisionByZero
  else num_len_loop 64 (num / base) base 1.

(** [file_size]: -1 on error, -2 when the file is not a regular file,
    otherwise its size in bytes. *)
Definition file_size (fd : stream) : Z :=
  match stat fd with
  | StatFails => -1
  | StatOther => -2
  | StatRegular size => size
  end.

(** ** The output: [dprintf] *)

Record sink : Type := mkSink {
  text : string;             (* what has been written *)
  quota : option nat         (* calls that still succeed; [None]: all *)
}.

(** One [dprintf] call writing [s]: [None] for a negative return. *)
Definition sys_dprintf (out : sink) (s : string) : option sink :=
  match quota out with
  | None => Some (mkSink (text out ++ s) None)
  | Some (S q) => Some (mkSink (text out ++ s) (Some q))
  | Some O => None
  end.

Definition nl : string := String (ascii_of_nat 10) EmptyString.

Definition digit_char (d : Z) : ascii :=
  match d with
  | 0 => "0" | 1 => "1" | 2 => "2" | 3 => "3" | 4 => "4" | 5 => "5"
  | 6 => "6" | 7 => "7" | 8 => "8" | 9 => "9" | 10 => "a" | 11 => "b"
  | 12 => "c" | 13 => "d" | 14 => "e" | _ => "f"
  end%char.

(** Digits of a non-negative [v], most significant first; at least one
    digit. 64 rounds are enough for 64 bits. *)
Fixpoint digits_loop (fuel : nat) (base v : Z) (acc : string) : string :=
  match fuel with
  | O => acc
  | S fuel' =>
    let acc' := String (digit_char (v mod base)) acc in
    if v / base =? 0 then acc' else digits_loop fuel' base (v / base) acc'
  end.

Definition digits (base v : Z) : string := digits_loop 64 base v EmptyString.

Fixpoint zeros (n : nat) : string :=
  match n with
  | O => EmptyString
  | S n' => String "0"%char (zeros n')
  end.

(** Zero padding to a minimum field width: never truncates. *)
Definition pad0 (width : Z) (s : string) : string :=
  (zeros (Z.to_nat width - String.length s) ++ s)%string.

(** ["%0*llx"], ["%02x"], ["%lld"] and ["%d"]. *)
Definition fmt_0llx (width v : Z) : string := pad0 width (digits 16 (to_ull v)).
Definition fmt_02x (v : Z) : string := pad0 2 (digits 16 (v mod 2 ^ 32)).
Definition fmt_d (v : Z) : string :=
  if v <? 0 then String "-"%char (digits 10 (- v)) else digits 10 v.

(** ** Diagnostics on standard error *)

Inductive diag : Type :=
| WarnFileSize            (* "getting file size" *)
| WarnDepthRequired       (* "memory depth has to be given when reading from stdin" *)
| WarnTooShort (bytes_requested in_file_size : Z)
| WarnRead                (* "reading binary words from file" *)
| WarnEOF                 (* "unexpected EOF" *)
| WarnWrite               (* "writing record to output" *)
| WarnEnd                 (* "ending .mif file" *)
| WarnClose (name : string)
| ErrMessage (code : Z)   (* err/errx with ERROR_MSG[code] *)
| Help.

Record world : Type := mkWorld {
  w_in : stream;
  w_out : sink;
  w_err : list diag
}.

Definition warn (w : world) (d : diag) : world :=
  mkWorld (w_in w) (w_out w) (w_err w ++ [d]).

Definition with_out (w : world) (out : sink) : world :=
  mkWorld (w_in w) out (w_err w).

(** ** Generator *)

Definition INPUT_BUFFER_SIZE : Z := 128.

Definition header_text (depth width : Z) : string :=
  ("DEPTH = " ++ fmt_d depth ++ ";" ++ nl ++
   "WIDTH = " ++ fmt_d width ++ ";" ++ nl ++
   "ADDRESS_RADIX = HEX;" ++ nl ++
   "DATA_RADIX = HEX;" ++ nl ++
   "CONTENT" ++ nl ++
   "BEGIN" ++ nl)%string.

Definition generate_mif_header (out : sink) (depth width : Z) : bool * sink :=
  match sys_dprintf out (header_text depth width) with
  | Some out' => (true, out')
  | None => (false, out)
  end.

(** The automatic variables of [generate_mif_content]. [buffer] is the
    array [byte buffer[INPUT_BUFFER_SIZE][word_size]] laid out row by
    row. *)
Record frame : Type := mkFrame {
  buffer : list Z;
  words_read : Z;
  put_aside_buffer : list Z;
  remainder_len : Z;
  word_idx : Z
}.

(** Indeterminate initial contents of the two arrays. *)
Record junk : Type := mkJunk {
  junk_buffer : nat -> Z;
  junk_put_aside : nat -> Z
}.

Definition fresh_array (f : nat -> Z) (size : Z) : list Z :=
  map (fun i => to_byte (f i)) (seq 0 (Z.to_nat size)).

(** [buffer[word_idx][byte_idx]]. *)
Definition buffer_at (buffer : list Z) (word_size word_idx byte_idx : Z)
  : outcome Z :=
  if (0 <=? word_idx) && (word_idx <? INPUT_BUFFER_SIZE)
     && (0 <=? byte_idx) && (byte_idx <? word_size)
  then match nth_error buffer (Z.to_nat (word_idx * word_size + byte_idx)) with
       | Some b => Done b
       | None => Fault OutOfBounds
       end
  else Fault OutOfBounds.

(** The inner loop: [byte_idx] runs from [n - 1] down to 0. The boolean
    is false when a [dprintf] failed. *)
Fixpoint emit_word (n : nat) (out : sink) (buffer : list Z)
  (word_size word_idx : Z) : outcome (bool * sink) :=
  match n with
  | O => Done (true, out)
  | S i =>
    let byte_idx := Z.of_nat i in
    b <- buffer_at buffer word_size word_idx byte_idx ;;
    match sys_dprintf out (if byte_idx =? 0
                           then (fmt_02x b ++ ";" ++ nl)%string
                           else fmt_02x b) with
    | None => Done (false, out)
    | Some out' => emit_word i out' buffer word_size word_idx
    end
  end.

(** What one round of the outer loop does: leave the function with a
    value, or go on to the next address. *)
Inductive round : Type :=
| Return (v : Z) (w : world)
| Next (w : world) (f : frame).

(** The loop body after the refill. *)
Definition emit_record (word_size addr_repr_width addr : Z) (w : world)
  (f : frame) : outcome round :=
  if (words_read f =? 0) && (remainder_len f =? 0)
  then Done (Return addr (warn w WarnEOF))
  else
    match sys_dprintf (w_out w) (fmt_0llx addr_repr_width addr ++ " : ")%string with
    | None => Done (Return addr (warn w WarnWrite))
    | Some out1 =>
      r <- emit_word (Z.to_nat word_size) out1 (buffer f) word_size (word_idx f) ;;
      let '(ok, out2) := r in
      if ok
      then Done (Next (with_out w out2)
                      (mkFrame (buffer f) (words_read f - 1) (put_aside_buffer f)
                               (remainder_len f) (word_idx f + 1)))
      else Done (Return addr (warn (with_out w out2) WarnWrite))
    end.

(** The whole loop body. *)
Definition content_round (word_size addr_repr_width addr : Z) (w : world)
  (f : frame) : outcome round :=
  if words_read f =? 0 then
    r <- read_aligned (w_in w) (buffer f) INPUT_BUFFER_SIZE word_size
                      (put_aside_buffer f) (remainder_len f) ;;
    let w1 := mkWorld (ra_in r) (w_out w) (w_err w) in
    let f1 := mkFrame (ra_dest r) (ra_ret r) (put_aside_buffer f) (ra_rem r) 0 in
    if ra_ret r <? 0
    then Done (Return addr (warn w1 WarnRead))
    else emit_record word_size addr_repr_width addr w1 f1
  else emit_record word_size addr_repr_width addr w f.

(** [for (addr = 0; addr < depth; ++addr)]: [todo] counts the rounds
    still to run, [addr = depth - todo]. *)
Fixpoint content_loop (todo : nat) (depth word_size addr_repr_width addr : Z)
  (w : world) (f : frame) : outcome (Z * world) :=
  match todo with
  | O => Done (depth, w)
  | S todo' =>
    r <- content_round word_size addr_repr_width addr w f ;;
    match r with
    | Return v w' => Done (v, w')
    | Next w' f' =>
      content_loop todo' depth word_size addr_repr_width (addr + 1) w' f'
    end
  end.

(** A zero-length variable-length array is taken as an empty array (GNU
    C). *)
Definition generate_mif_content (j : junk) (w : world) (depth width : Z)
  : outcome (Z * world) :=
  let word_size := to_byte (Z.quot width 8) in
  d1 <- signed64 (depth - 1) ;;
  addr_repr_width <- num_len (to_ull d1) 16 ;;
  let f := mkFrame (fresh_array (junk_buffer j) (INPUT_BUFFER_SIZE * word_size))
                   0
                   (fresh_array (junk_put_aside j) word_size)
                   0 0 in
  content_loop (Z.to_nat depth) depth word_size addr_repr_width 0 w f.

(** The argument validation at the head of [generate_mif]: [None] when
    the function returns -1 there, otherwise the value of [depth] that
    the rest of the function uses. *)
Definition generate_mif_validate (w : world) (depth width : Z)
  : outcome (world * option Z) :=
  p <- signed64 (depth * width) ;;
  let bytes_requested := Z.quot p 8 in
  let in_file_size := file_size (w_in w) in
  if in_file_size =? -1
  then Done (warn w WarnFileSize, None)
  else if (in_file_size =? -2) && (depth <? 0)
  then Done (warn w WarnDepthRequired, None)
  else if depth <? 0
  then Done (w, Some in_file_size)
  else if negb (in_file_size =? -2) && (in_file_size <? bytes_requested)
  then Done (warn w (WarnTooShort bytes_requested in_file_size), Some depth)
  else Done (w, Some depth).

Definition generate_mif (j : junk) (w : world) (depth width : Z)
  : outcome (Z * world) :=
  v <- generate_mif_validate w depth width ;;
  let '(w1, resolved) := v in
  match resolved with
  | None => Done (-1, w1)
  | Some depth' =>
    let '(ok, out1) := generate_mif_header (w_out w1) depth' width in
    if negb ok then Done (-1, w1)
    else
      r <- generate_mif_content j (with_out w1 out1) depth' width ;;
      let '(word_count, w2) := r in
      if word_count <? 0 then Done (-1, w2)
      else
        match sys_dprintf (w_out w2) ("END;" ++ nl)%string with
        | None => Done (-1, warn w2 WarnEnd)
        | Some out3 => Done (word_count, with_out w2 out3)
        end
  end.

(** ** Errors *)

Definition BAD_NUMBER_FORMAT : Z := 1.
Definition OVERFLOW_ERROR : Z := 2.
Definition INVALID_ARGUMENTS : Z := 3.
Definition FILE_OPEN_FAILURE : Z := 4.
Definition FILE_CLOSE_FAILURE : Z := 5.
Definition GENRATOR_FAILURE : Z := 6.
Definition GENERATOR_EARLY_STOP : Z := 7.
Definition EXIT_SUCCESS : Z := 0.

(** ** Closing descriptors *)

Record kernel : Type := mkKernel {
  close_error : Z -> bool;   (* descriptors whose close reports an error *)
  close_calls : list Z       (* the close calls made, oldest first *)
}.

Definition closed_before (k : kernel) (fd : Z) : bool :=
  existsb (Z.eqb fd) (close_calls k).

(** [close (fd) == 0]: false for a descriptor that is not open (negative
    or closed before) and when the kernel reports an error. *)
Definition sys_close (k : kernel) (fd : Z) : bool * kernel :=
  ((0 <=? fd) && negb (closed_before k fd) && negb (close_error k fd),
   mkKernel (close_error k) (close_calls k ++ [fd])).

(** [safe_close (int *fd)]: [None] is the NULL pointer, [Some v] a
    pointer to an [int] holding [v]. The second component is the [int]
    after the call. *)
Definition safe_close (fd : option Z) (k : kernel) : bool * option Z * kernel :=
  match fd with
  | None => (true, None, k)
  | Some v =>
    if v =? -1 then (true, Some v, k)
    else
      let '(retval, k') := sys_close k v in
      (retval, Some (-1), k')
  end.

(** ** Main *)

(** What [strtol]/[strtoll] report for an argument: the number, whether
    the whole string was consumed, and whether [errno] is [ERANGE]. *)
Record strtol_result : Type := mkStrtol {
  st_num : Z;
  st_all : bool;
  st_erange : bool
}.

(** [str_to_byte] and [str_to_ll]: [inl] is the status of [errx]/[err]. *)
Definition str_to_byte (str : strtol_result) : Z + Z :=
  if negb (st_all str) then inl BAD_NUMBER_FORMAT
  else if (st_num str <? 0) || (UINT8_MAX <? st_num str) then inl OVERFLOW_ERROR
  else inr (to_byte (st_num str)).

Definition str_to_ll (str : strtol_result) : Z + Z :=
  if negb (st_all str) then inl BAD_NUMBER_FORMAT
  else if st_erange str then inl OVERFLOW_ERROR
  else inr (st_num str).

(** What [getopt_long] returns, one after the other. *)
Inductive cli_option : Type :=
| OptWidth (optarg : strtol_result)
| OptDepth (optarg : strtol_result)
| OptOutput (optarg : string)
| OptHelp
| OptUnknown.

Record config : Type := mkConfig {
  cfg_depth : Z;
  cfg_width : Z;
  cfg_in_filename : string;
  cfg_out_filename : option string
}.

Definition default_config : config := mkConfig (-1) 8 "-" None.

(** The option loop: [inl (status, diagnostic)] when the process ends
    there. *)
Fixpoint parse_options (opts : list cli_option) (c : config)
  : (Z * diag) + config :=
  match opts with
  | [] => inr c
  | OptWidth a :: rest =>
    match str_to_byte a with
    | inl status => inl (status, ErrMessage status)
    | inr width =>
      parse_options rest
        (mkConfig (cfg_depth c) width (cfg_in_filename c) (cfg_out_filename c))
    end
  | OptDepth a :: rest =>
    match str_to_ll a with
    | inl status => inl (status, ErrMessage status)
    | inr depth =>
      parse_options rest
        (mkConfig depth (cfg_width c) (cfg_in_filename c) (cfg_out_filename c))
    end
  | OptOutput name :: rest =>
    parse_options rest
      (mkConfig (cfg_depth c) (cfg_width c) (cfg_in_filename c) (Some name))
  | OptHelp :: _ => inl (EXIT_SUCCESS, Help)
  | OptUnknown :: _ => inl (INVALID_ARGUMENTS, Help)
  end.

(** The operands left after the options. *)
Definition parse_operands (operands : list string) (c : config)
  : (Z * diag) + config :=
  match operands with
  | [] => inr c
  | [name] =>
    inr (mkConfig (cfg_depth c) (cfg_width c) name (cfg_out_filename c))
  | _ => inl (INVALID_ARGUMENTS, ErrMessage INVALID_ARGUMENTS)
  end.

(** The machine [main] runs on. [open] gives the lowest free descriptor:
    3, then 4. *)
Record machine : Type := mkMachine {
  m_stdin : stream;
  m_stdout : sink;
  m_open_in : string -> option stream;
  m_open_out : string -> option sink;
  m_kernel : kernel;
  m_junk : junk
}.

Definition STDIN_FILENO : Z := 0.
Definition STDOUT_FILENO : Z := 1.

Record finished : Type := mkFinished {
  exit_status : Z;
  f_world : world;
  f_kernel : kernel
}.

(** [main] from the comparison of [words_written] with [depth] to the
    end. [in_fd] and [out_fd] are the two [int] variables. *)
Definition main_finish (c : config) (in_fd out_fd : Z) (words_written : Z)
  (w : world) (k : kernel) : finished :=
  let '(in_fd1, out_fd1, k1, leave) :=
    if negb (words_written =? cfg_depth c) then
      let '(_, in_fd', k') := safe_close (Some in_fd) k in
      let '(_, out_fd', k'') := safe_close (Some out_fd) k' in
      (in_fd', out_fd', k'', words_written <? 0)
    else (Some in_fd, Some out_fd, k, false) in
  if leave then mkFinished GENRATOR_FAILURE w k1
  else
    let retval := 0 in
    (* in_filename is never NULL *)
    let '(ok_in, _, k2) := safe_close in_fd1 k1 in
    let '(retval, w2) :=
      if negb ok_in
      then (FILE_CLOSE_FAILURE, warn w (WarnClose (cfg_in_filename c)))
      else (retval, w) in
    match cfg_out_filename c with
    | Some name =>
      let '(ok_out, _, k3) := safe_close out_fd1 k2 in
      if negb ok_out
      then mkFinished FILE_CLOSE_FAILURE (warn w2 (WarnClose name)) k3
      else mkFinished retval w2 k3
    | None => mkFinished retval w2 k2
    end.

Definition main (m : machine) (opts : list cli_option) (operands : list string)
  : outcome finished :=
  let w0 := mkWorld (m_stdin m) (m_stdout m) [] in
  let stop (e : Z * diag) := Done (mkFinished (fst e) (warn w0 (snd e)) (m_kernel m)) in
  match parse_options opts default_config with
  | inl e => stop e
  | inr c0 =>
    match parse_operands operands c0 with
    | inl e => stop e
    | inr c =>
      let '(in_fd, input) :=
        if negb (String.eqb (cfg_in_filename c) "-")
        then match m_open_in m (cfg_in_filename c) with
             | Some s => (3, Some s)
             | None => (-1, None)
             end
        else (STDIN_FILENO, Some (m_stdin m)) in
      match input with
      | None => stop (FILE_OPEN_FAILURE, ErrMessage FILE_OPEN_FAILURE)
      | Some fin =>
        let '(out_fd, output) :=
          match cfg_out_filename c with
          | Some name =>
            match m_open_out m name with
            | Some s => (if in_fd =? 3 then 4 else 3, Some s)
            | None => (-1, None)
            end
          | None => (STDOUT_FILENO, Some (m_stdout m))
          end in
        match output with
        | None =>
          let '(_, _, k) := safe_close (Some in_fd) (m_kernel m) in
          Done (mkFinished FILE_OPEN_FAILURE
                           (warn w0 (ErrMessage FILE_OPEN_FAILURE)) k)
        | Some fout =>
          r <- generate_mif (m_junk m) (mkWorld fin fout [])
                            (cfg_depth c) (cfg_width c) ;;
          let '(words_written, w) := r in
          Done (main_finish c in_fd out_fd words_written w (m_kernel m))
        end
      end
    end
  end.

(** ** Notions used in the statements *)

Definition is_byte (b : Z) : Prop := 0 <= b < 256.

(** A byte as a two-digit lowercase hexadecimal pair. *)
Definition hex_pair (b : Z) : string :=
  String (digit_char (b / 16)) (String (digit_char (b mod 16)) EmptyString).

(** The word-value field as the specification words it: the pairs of the
    bytes from the last index to the first, with no separator. *)
Definition format_word_bytes (bytes : list Z) : string :=
  fold_right append EmptyString (map hex_pair (rev bytes)).

(** The bytes of [buffer[word_idx]]. *)
Definition word_at (buffer : list Z) (word_size word_idx : Z) : list Z :=
  firstn (Z.to_nat word_size) (skipn (Z.to_nat (word_idx * word_size)) buffer).

(** The part of the field written when [n] bytes are still to come. *)
Definition field_tail (word : list Z) (n : nat) : string :=
  (fold_right append EmptyString (map hex_pair (rev (firstn n word)))
   ++ match n with O => EmptyString | S _ => ";" ++ nl end)%string.

(** Number of base-16 digits of [v], counted in at most [fuel + 1]
    rounds. *)
Fixpoint ndigits (fuel : nat) (v : Z) : nat :=
  match fuel with
  | O => 1
  | S fuel' => if v / 16 =? 0 then 1%nat else S (ndigits fuel' (v / 16))
  end.

(** A stream that is read without errors or short reads, and a sink that
    takes every write. *)
Definition plain_stream (bytes : list Z) (st : stat_info) : stream :=
  mkStream bytes [] st.

Definition open_sink : sink := mkSink EmptyString None.

Definition zero_junk : junk := mkJunk (fun _ => 0) (fun _ => 0).

Definition quiet_kernel : kernel := mkKernel (fun _ => false) [].

(** Five bytes read in one call into a buffer of 17 two-byte words. *)
Definition five_bytes : stream := plain_stream [1; 2; 3; 4; 5] StatOther.

Definition five_bytes_filled : ra_out :=
  mkRa 2 ([1; 2; 3; 4; 5] ++ repeat 0 29) 1 (plain_stream [] StatOther).

(** The last round of a run with depth 4 and width 8 over a three-byte
    input: the input is used up and the buffer has no word left. *)
Definition drained_world : world :=
  mkWorld (plain_stream [] StatOther) open_sink [].

Definition drained_frame : frame :=
  mkFrame ([0; 1; 2] ++ repeat 0 125) 0 [0] 0 3.

Definition drained_fill : ra_out :=
  mkRa 0 ([0; 1; 2] ++ repeat 0 125) 0 (plain_stream [] StatOther).

(** An input whose first read fails. *)
Definition failing_world : world :=
  mkWorld (mkStream [1; 2; 3; 4] [RdError] StatOther) open_sink [].

Definition failing_frame : frame :=
  mkFrame (repeat 0 256) 0 [0; 0] 0 0.

Definition failing_fill : ra_out :=
  mkRa (-1) (repeat 0 256) 0 (mkStream [1; 2; 3; 4] [] StatOther).

(** A machine with the given standard input, no files, and no failing
    system call. *)
Definition pipe_machine (bytes : list Z) : machine :=
  mkMachine (plain_stream bytes StatOther) open_sink
            (fun _ => None) (fun _ => None) quiet_kernel zero_junk.

Definition number (n : Z) : strtol_result := mkStrtol n true false.

(** Four bytes arriving as three bytes and then one. *)
Definition short_then_rest (st : stat_info) : stream :=
  mkStream [1; 2; 3; 4] [RdAtMost 3] st.

(** A regular file of ten bytes. *)
Definition ten_byte_file : world :=
  mkWorld (plain_stream [1; 2; 3; 4; 5; 6; 7; 8; 9; 10] (StatRegular 10))
          open_sink [].

Definition pipe_world : world :=
  mkWorld (plain_stream [1; 2; 3; 4] StatOther) open_sink [].

(** A buffer of 128 two-byte words whose first word is 0x12, 0x34. *)
Definition one_word_buffer : list Z := [0x12; 0x34] ++ repeat 0 254.

(** The records of the [n] words of [data] from word [idx] on, numbered
    from [addr]: address field, [" : "], word field, [";"], newline. *)
Fixpoint records (width word_size : Z) (data : list Z) (addr idx : Z) (n : nat)
  : string :=
  match n with
  | O => EmptyString
  | S n' =>
    (fmt_0llx width addr ++ " : "
     ++ format_word_bytes (word_at data word_size idx) ++ ";" ++ nl
     ++ records width word_size data (addr + 1) (idx + 1) n')%string
  end.

(** [dest] with the bytes from [off] on replaced by [bs]. *)
Definition splice (dest : list Z) (off : Z) (bs : list Z) : list Z :=
  firstn (Z.to_nat off) dest ++ bs ++ skipn (Z.to_nat (off + len bs)) dest.

(** The state of the frame between two fills of a run without short
    reads: arrays of the declared sizes, no word left, no carry. *)
Definition ready (word_size : Z) (f : frame) : Prop :=
  len (buffer f) = INPUT_BUFFER_SIZE * word_size
  /\ Forall is_byte (buffer f)
  /\ len (put_aside_buffer f) = word_size
  /\ Forall is_byte (put_aside_buffer f)
  /\ words_read f = 0
  /\ remainder_len f = 0.

(** The value of a hexadecimal digit and of a string of such digits
    ([None] when a character is not a lowercase hexadecimal digit). *)
Definition digit_value (c : ascii) : option Z :=
  (if c =? "0" then Some 0 else if c =? "1" then Some 1
   else if c =? "2" then Some 2 else if c =? "3" then Some 3
   else if c =? "4" then Some 4 else if c =? "5" then Some 5
   else if c =? "6" then Some 6 else if c =? "7" then Some 7
   else if c =? "8" then Some 8 else if c =? "9" then Some 9
   else if c =? "a" then Some 10 else if c =? "b" then Some 11
   else if c =? "c" then Some 12 else if c =? "d" then Some 13
   else if c =? "e" then Some 14 else if c =? "f" then Some 15
   else None)%char.

Fixpoint hex_value_from (acc : Z) (s : string) : option Z :=
  match s with
  | EmptyString => Some acc
  | String c s' =>
    match digit_value c with
    | Some d => hex_value_from (acc * 16 + d) s'
    | None => None
    end
  end.

Definition hex_value (s : string) : option Z :=
  match s with
  | EmptyString => None
  | _ => hex_value_from 0 s
  end.



(** A machine on which every input name opens a regular file with the
    given bytes and no output can be opened. *)
Definition disk_machine (bytes : list Z) : machine :=
  mkMachine (plain_stream [] StatOther) open_sink
            (fun _ => Some (plain_stream bytes (StatRegular (len bytes))))
            (fun _ => None) quiet_kernel zero_junk.

(** ** Strings and digits *)

Lemma append_nil_r (s : string) : (s ++ EmptyString)%string = s.
Proof. induction s as [|c s IH]; simpl; [reflexivity | now rewrite IH]. Qed.

Lemma append_assoc (a b c : string) : ((a ++ b) ++ c = a ++ (b ++ c))%string.
Proof. induction a as [|x a IH]; simpl; [reflexivity | now rewrite IH]. Qed.

Lemma length_append (a b : string) :
  String.length (a ++ b) = (String.length a + String.length b)%nat.
Proof. induction a as [|x a IH]; simpl; [reflexivity | now rewrite IH]. Qed.

Lemma length_zeros (n : nat) : String.length (zeros n) = n.
Proof. induction n as [|n IH]; simpl; [reflexivity | now rewrite IH]. Qed.

Lemma length_pad0 (width : Z) (s : string) :
  (String.length s <= Z.to_nat width)%nat ->
  String.length (pad0 width s) = Z.to_nat width.
Proof.
  intros H. unfold pad0. rewrite length_append, length_zeros. lia.
Qed.

Lemma length_digits_loop (fuel : nat) :
  forall v acc,
    String.length (digits_loop (S fuel) 16 v acc)
    = (ndigits fuel v + String.length acc)%nat.
Proof.
  induction fuel as [|fuel IH]; intros v acc.
  - simpl. destruct (v / 16 =? 0); reflexivity.
  - change (digits_loop (S (S fuel)) 16 v acc)
      with (if v / 16 =? 0 then String (digit_char (v mod 16)) acc
            else digits_loop (S fuel) 16 (v / 16)
                             (String (digit_char (v mod 16)) acc)).
    simpl ndigits. destruct (v / 16 =? 0).
    + reflexivity.
    + rewrite IH. simpl. lia.
Qed.

Lemma ndigits_pos (fuel : nat) (v : Z) : (1 <= ndigits fuel v)%nat.
Proof. destruct fuel; simpl; [lia | destruct (v / 16 =? 0); lia]. Qed.

(** More fuel than needed changes nothing. *)
Lemma ndigits_fuel (f : nat) :
  forall v g, 0 <= v < 16 ^ (Z.of_nat f + 1) -> (f <= g)%nat ->
              ndigits g v = ndigits f v.
Proof.
  induction f as [|f IH]; intros v g Hv Hg.
  - assert (Hq : v / 16 = 0) by (apply Z.div_small; simpl in Hv; lia).
    destruct g; simpl; [reflexivity | now rewrite Hq].
  - destruct g as [|g]; [lia|]. simpl.
    destruct (v / 16 =? 0); [reflexivity|].
    f_equal. apply IH; [|lia].
    replace (Z.of_nat (S f) + 1) with (Z.succ (Z.of_nat f + 1)) in Hv by lia.
    rewrite Z.pow_succ_r in Hv by lia.
    split; [apply Z.div_pos; lia | apply Z.div_lt_upper_bound; lia].
Qed.

Lemma ndigits_mono (f : nat) :
  forall u v, 0 <= u <= v -> (ndigits f u <= ndigits f v)%nat.
Proof.
  induction f as [|f IH]; intros u v H; simpl; [lia|].
  assert (Hdiv : 0 <= u / 16 <= v / 16).
  { split; [apply Z.div_pos; lia | apply Z.div_le_mono; lia]. }
  destruct (Z.eqb_spec (v / 16) 0) as [Hv|Hv].
  - replace (u / 16) with 0 by lia. reflexivity.
  - destruct (Z.eqb_spec (u / 16) 0); [pose proof (ndigits_pos f (v / 16)); lia|].
    apply le_n_S, IH, Hdiv.
Qed.

(** [ndigits] is the number of base-16 digits. *)
Lemma ndigits_bounds (f : nat) :
  forall v, 0 <= v < 16 ^ (Z.of_nat f + 1) ->
            v < 16 ^ Z.of_nat (ndigits f v)
            /\ (ndigits f v = 1%nat \/ 16 ^ (Z.of_nat (ndigits f v) - 1) <= v).
Proof.
  induction f as [|f IH]; intros v Hv.
  - simpl in *. lia.
  - simpl ndigits. destruct (Z.eqb_spec (v / 16) 0) as [Hq|Hq].
    + split; [|now left].
      change (16 ^ Z.of_nat 1) with 16.
      pose proof (Z.div_mod v 16 ltac:(lia)) as E.
      pose proof (Z.mod_pos_bound v 16 ltac:(lia)). lia.
    + replace (Z.of_nat (S f) + 1) with (Z.succ (Z.of_nat f + 1)) in Hv by lia.
      rewrite Z.pow_succ_r in Hv by lia.
      assert (Hr : 0 <= v / 16 < 16 ^ (Z.of_nat f + 1)).
      { split; [apply Z.div_pos; lia | apply Z.div_lt_upper_bound; lia]. }
      destruct (IH _ Hr) as [Hup Hlow].
      pose proof (Z.div_mod v 16 ltac:(lia)) as E.
      pose proof (Z.mod_pos_bound v 16 ltac:(lia)) as Hm.
      pose proof (ndigits_pos f (v / 16)) as Hp.
      rewrite Nat2Z.inj_succ. rewrite Z.pow_succ_r by lia.
      split; [lia|]. right.
      replace (Z.succ (Z.of_nat (ndigits f (v / 16))) - 1)
        with (Z.succ (Z.of_nat (ndigits f (v / 16)) - 1)) by lia.
      rewrite Z.pow_succ_r by lia.
      destruct Hlow as [H1|Hlow].
      * rewrite H1. change (16 ^ (Z.of_nat 1 - 1)) with 1.
        assert (0 < v / 16) by lia. lia.
      * lia.
Qed.

(** The loop of [num_len] counts the same digits, given the fuel. *)
Lemma num_len_loop_ndigits (f : nat) :
  forall v len, 0 <= v < 16 ^ (Z.of_nat f + 1) ->
    num_len_loop f (v / 16) 16 len
    = Done ((len + Z.of_nat (ndigits f v) - 1) mod 2 ^ 32).
Proof.
  induction f as [|f IH]; intros v len Hv.
  - assert (Hq : v / 16 = 0) by (apply Z.div_small; simpl in Hv; lia).
    rewrite Hq. simpl. f_equal. f_equal. lia.
  - replace (Z.of_nat (S f) + 1) with (Z.succ (Z.of_nat f + 1)) in Hv by lia.
    rewrite Z.pow_succ_r in Hv by lia.
    assert (Hr : 0 <= v / 16 < 16 ^ (Z.of_nat f + 1)).
    { split; [apply Z.div_pos; lia | apply Z.div_lt_upper_bound; lia]. }
    simpl num_len_loop. simpl ndigits.
    destruct (Z.eqb_spec (v / 16) 0) as [Hq|Hq].
    + rewrite Hq. simpl. f_equal. f_equal. lia.
    + destruct (Z.ltb_spec 0 (v / 16)); [|lia].
      rewrite IH by exact Hr. f_equal. f_equal. lia.
Qed.

Lemma ndigits_le_fuel (f : nat) : forall v, (ndigits f v <= S f)%nat.
Proof.
  induction f as [|f IH]; intros v; simpl; [lia|].
  destruct (v / 16 =? 0); [lia | specialize (IH (v / 16)); lia].
Qed.

Lemma num_len_16 (v : Z) :
  0 <= v < 2 ^ 64 -> num_len v 16 = Done (Z.of_nat (ndigits 15 v)).
Proof.
  intros Hv. unfold num_len. simpl (16 =? 0).
  rewrite num_len_loop_ndigits.
  - rewrite (ndigits_fuel 15 v 64) by (simpl; lia).
    pose proof (ndigits_le_fuel 15 v). pose proof (ndigits_pos 15 v).
    f_equal. rewrite Z.mod_small; lia.
  - split; [lia|]. eapply Z.lt_le_trans; [apply Hv|]. now vm_compute.
Qed.

Lemma length_digits_16 (v : Z) :
  0 <= v < 2 ^ 64 -> String.length (digits 16 v) = ndigits 15 v.
Proof.
  intros Hv. unfold digits. rewrite length_digits_loop. simpl String.length.
  rewrite (ndigits_fuel 15 v 63) by (simpl; lia). lia.
Qed.

(** ** Word field *)

Lemma fmt_02x_hex_pair (b : Z) : is_byte b -> fmt_02x b = hex_pair b.
Proof.
  intros Hb.
  assert (Hall : forallb (fun n => String.eqb (fmt_02x (Z.of_nat n))
                                              (hex_pair (Z.of_nat n)))
                         (seq 0 256) = true) by now vm_compute.
  rewrite forallb_forall in Hall.
  specialize (Hall (Z.to_nat b)).
  rewrite Z2Nat.id in Hall by (unfold is_byte in Hb; lia).
  apply String.eqb_eq, Hall, in_seq. unfold is_byte in Hb. lia.
Qed.

Lemma firstn_snoc {A : Type} (l : list A) :
  forall i x, nth_error l i = Some x -> firstn (S i) l = firstn i l ++ [x].
Proof.
  induction l as [|a l IH]; intros [|i] x H; simpl in *; try discriminate.
  - now inversion H.
  - f_equal. now apply IH.
Qed.

Lemma word_at_nth (buffer : list Z) (word_size word_idx : Z) (i : nat) :
  0 <= word_size -> 0 <= word_idx -> (i < Z.to_nat word_size)%nat ->
  nth_error (word_at buffer word_size word_idx) i
  = nth_error buffer (Z.to_nat (word_idx * word_size + Z.of_nat i)).
Proof.
  intros Hw Hi Hlt. unfold word_at.
  rewrite nth_error_firstn.
  destruct (Nat.ltb_spec i (Z.to_nat word_size)); [|lia].
  rewrite nth_error_skipn. f_equal. lia.
Qed.

Lemma emit_word_tail (buffer : list Z) (word_size word_idx : Z) :
  1 <= word_size -> 0 <= word_idx < INPUT_BUFFER_SIZE ->
  len buffer = INPUT_BUFFER_SIZE * word_size -> Forall is_byte buffer ->
  forall n out,
    (n <= Z.to_nat word_size)%nat -> quota out = None ->
    emit_word n out buffer word_size word_idx
    = Done (true, mkSink (text out
                          ++ field_tail (word_at buffer word_size word_idx) n)
                         None).
Proof.
  intros Hw Hi Hlen Hbytes. unfold INPUT_BUFFER_SIZE in *.
  induction n as [|i IH]; intros out Hn Hq.
  - simpl. unfold field_tail. simpl. rewrite append_nil_r.
    destruct out as [t q]; simpl in *; now subst.
  - cbn [emit_word].
    assert (Hpos : (Z.to_nat (word_idx * word_size + Z.of_nat i)
                    < List.length buffer)%nat) by (unfold len in Hlen; nia).
    destruct (nth_error buffer (Z.to_nat (word_idx * word_size + Z.of_nat i)))
      as [b|] eqn:Hb; [|apply nth_error_None in Hb; lia].
    assert (Hat : buffer_at buffer word_size word_idx (Z.of_nat i) = Done b).
    { unfold buffer_at, INPUT_BUFFER_SIZE. rewrite Hb.
      destruct (Z.leb_spec 0 word_idx); [|lia].
      destruct (Z.ltb_spec word_idx 128); [|lia].
      destruct (Z.leb_spec 0 (Z.of_nat i)); [|lia].
      destruct (Z.ltb_spec (Z.of_nat i) word_size); [reflexivity|lia]. }
    rewrite Hat. cbn [bind].
    assert (Hbyte : is_byte b).
    { rewrite Forall_forall in Hbytes. eapply Hbytes, nth_error_In, Hb. }
    rewrite (fmt_02x_hex_pair b Hbyte).
    assert (Hword : nth_error (word_at buffer word_size word_idx) i = Some b)
      by (rewrite word_at_nth by lia; exact Hb).
    unfold sys_dprintf. rewrite Hq.
    rewrite IH by (simpl; first [lia | reflexivity]).
    cbn [text]. f_equal. f_equal. f_equal.
    unfold field_tail. rewrite (firstn_snoc _ _ _ Hword).
    rewrite rev_app_distr. cbn [rev app map fold_right].
    destruct i as [|i'].
    + simpl. now rewrite !append_assoc.
    + replace (Z.of_nat (S i') =? 0) with false
        by (symmetry; apply Z.eqb_neq; lia).
      now rewrite !append_assoc.
Qed.

(** C8. For every word of [word_size >= 1] bytes in the buffer, the
    inner loop of [generate_mif_content] writes the two-digit lowercase
    hexadecimal pairs of the word's bytes, from the last index down to
    the first and with no separator, and then [";\n"]. The bytes
    [0x12, 0x34] give ["3412"], and the one-word input [0x12, 0x34] with
    width 16 gives the record ["0 : 3412;\n"]. *)
Theorem word_field_last_byte_first :
  forall buffer word_size word_idx out,
    1 <= word_size -> 0 <= word_idx < INPUT_BUFFER_SIZE ->
    len buffer = INPUT_BUFFER_SIZE * word_size -> Forall is_byte buffer ->
    quota out = None ->
    List.length (word_at buffer word_size word_idx) = Z.to_nat word_size
    /\ emit_word (Z.to_nat word_size) out buffer word_size word_idx
       = Done (true,
               mkSink (text out
                       ++ format_word_bytes (word_at buffer word_size word_idx)
                       ++ ";" ++ nl)
                      None)
    /\ format_word_bytes [0x12; 0x34] = "3412"%string
    /\ (forall j st,
          generate_mif_content j
            (mkWorld (plain_stream [0x12; 0x34] st) open_sink []) 1 16
          = Done (1, mkWorld (plain_stream [] st)
                             (mkSink ("0 : 3412;" ++ nl) None) [])).
Proof.
  intros buffer word_size word_idx out Hw Hi Hlen Hbytes Hq.
  assert (Hl : List.length (word_at buffer word_size word_idx)
               = Z.to_nat word_size).
  { unfold word_at. rewrite length_firstn, length_skipn.
    unfold len, INPUT_BUFFER_SIZE in *. nia. }
  split; [exact Hl|]. split; [|split].
  - rewrite (emit_word_tail buffer word_size word_idx Hw Hi Hlen Hbytes)
      by (first [lia | exact Hq]).
    f_equal. f_equal. f_equal. f_equal.
    unfold field_tail, format_word_bytes.
    rewrite firstn_all2 by lia.
    destruct (Z.to_nat word_size) eqn:E; [lia | reflexivity].
  - reflexivity.
  - intros j st. now vm_compute.
Qed.

Lemma word_field_last_byte_first_witness :
  emit_word (Z.to_nat 2) open_sink one_word_buffer 2 0
  = Done (true,
          mkSink (text open_sink
                  ++ format_word_bytes (word_at one_word_buffer 2 0)
                  ++ ";" ++ nl)
                 None).
Proof.
  apply (word_field_last_byte_first one_word_buffer 2 0 open_sink).
  - lia.
  - unfold INPUT_BUFFER_SIZE. lia.
  - vm_compute. reflexivity.
  - unfold one_word_buffer. apply Forall_app. split.
    + repeat constructor; unfold is_byte; lia.
    + apply Forall_forall. intros x Hx. apply repeat_spec in Hx.
      subst x. unfold is_byte. lia.
  - reflexivity.
Defined.

(** ** Word-aligned reader *)

Lemma bind_done {A B : Type} (m : outcome A) (k : A -> outcome B) (b : B) :
  bind m k = Done b -> exists a, m = Done a /\ k a = Done b.
Proof. destruct m as [a|w]; simpl; [eauto | discriminate]. Qed.

Lemma signed64_done (z r : Z) :
  signed64 z = Done r -> r = z /\ LLONG_MIN <= z <= LLONG_MAX.
Proof.
  unfold signed64.
  destruct (Z.leb_spec LLONG_MIN z), (Z.leb_spec z LLONG_MAX); simpl;
    intros E; inversion E; lia.
Qed.

Lemma c_div_done (a b r : Z) : c_div a b = Done r -> b <> 0 /\ r = Z.quot a b.
Proof.
  unfold c_div. destruct (Z.eqb_spec b 0); intros E; inversion E. now split.
Qed.

Lemma c_mod_done (a b r : Z) : c_mod a b = Done r -> b <> 0 /\ r = Z.rem a b.
Proof.
  unfold c_mod. destruct (Z.eqb_spec b 0); intros E; inversion E. now split.
Qed.

Ltac open_bind H :=
  let a := fresh "a" in
  let Ha := fresh "Ha" in
  let K := fresh "K" in
  apply bind_done in H; destruct H as (a & Ha & K); rename K into H.

(** C2. For every call of [read_aligned] with [word_size >= 1] that
    returns a count [k >= 0] and leaves the carry length [r]:
    [k * word_size + r] is the prior carry length plus the number of
    bytes the underlying read transferred, and [0 <= r < word_size].
    This covers the word sizes 1, 2, 4, 8 and the capacities 1, 17, 128. *)
Theorem read_aligned_carry_equation :
  forall fd dest nwords word_size put_aside remainder_len out,
    1 <= word_size <= UINT8_MAX ->
    0 <= remainder_len <= UINT8_MAX ->
    read_aligned fd dest nwords word_size put_aside remainder_len = Done out ->
    0 <= ra_ret out ->
    exists bs,
      sys_read fd (to_size_t (to_size_t (nwords * word_size) - remainder_len))
      = (Some bs, ra_in out)
      /\ ra_ret out * word_size + ra_rem out = remainder_len + len bs
      /\ ra_ret out = (remainder_len + len bs) / word_size
      /\ ra_rem out = (remainder_len + len bs) mod word_size
      /\ 0 <= ra_rem out < word_size.
Proof.
  intros fd dest nwords word_size put_aside remainder_len out Hw Hr H Hret.
  unfold UINT8_MAX in *. unfold read_aligned in H.
  open_bind H. destruct a as [dest1 off].
  destruct (sys_read fd (to_size_t (to_size_t (nwords * word_size) - remainder_len)))
    as [got fd'] eqn:Hread.
  destruct got as [bs|]; [|inversion H; subst; simpl in Hret; lia].
  open_bind H. open_bind H. open_bind H. open_bind H. open_bind H.
  inversion H; subst out; clear H. cbn [ra_ret ra_rem ra_in].
  apply signed64_done in Ha1. destruct Ha1 as [-> _].
  apply c_div_done in Ha2. destruct Ha2 as [_ ->].
  apply c_mod_done in Ha3. destruct Ha3 as [_ ->].
  assert (Hb : 0 <= len bs + remainder_len) by (unfold len; lia).
  rewrite Z.quot_div_nonneg, Z.rem_mod_nonneg by lia.
  pose proof (Z.mod_pos_bound (len bs + remainder_len) word_size ltac:(lia)) as Hm.
  pose proof (Z.div_mod (len bs + remainder_len) word_size ltac:(lia)) as Hd.
  unfold to_byte. rewrite (Z.mod_small _ 256) by lia.
  exists bs. replace (remainder_len + len bs) with (len bs + remainder_len) by lia.
  repeat split; try lia.
Qed.

Lemma read_aligned_carry_equation_witness :
  exists bs,
    sys_read five_bytes (to_size_t (to_size_t (17 * 2) - 0))
    = (Some bs, plain_stream [] StatOther)
    /\ 2 * 2 + 1 = 0 + len bs
    /\ 2 = (0 + len bs) / 2
    /\ 1 = (0 + len bs) mod 2
    /\ 0 <= 1 < 2.
Proof.
  apply (read_aligned_carry_equation five_bytes (repeat 0 34) 17 2 [0; 0] 0
                                     five_bytes_filled).
  - unfold UINT8_MAX. lia.
  - unfold UINT8_MAX. lia.
  - vm_compute. reflexivity.
  - simpl. lia.
Defined.

Lemma store_length (dest : list Z) (off : Z) (bs d : list Z) :
  store dest off bs = Done d -> len d = len dest.
Proof.
  unfold store. destruct bs as [|b bs]; [intros E; now inversion E|].
  destruct (Z.leb_spec 0 off); simpl; [|discriminate].
  destruct (Z.leb_spec (off + len (b :: bs)) (len dest)); [|discriminate].
  intros E. inversion E; subst d; clear E. unfold len in *.
  rewrite length_app, length_firstn. cbn [List.length].
  rewrite length_app, length_skipn. cbn [List.length] in *. lia.
Qed.

Lemma sys_read_bound (fd fd' : stream) (count : Z) (bs : list Z) :
  sys_read fd count = (Some bs, fd') -> 0 <= count -> len bs <= count.
Proof.
  unfold sys_read. intros E Hc.
  destruct (script fd) as [|[|n] rest]; inversion E; subst; unfold len;
    rewrite length_firstn; lia.
Qed.

(** With an empty carry and arrays of the declared sizes the call always
    returns. *)
Lemma read_aligned_fresh_carry_returns
  (fd : stream) (dest : list Z) (nwords word_size : Z) (put_aside : list Z) :
  1 <= word_size <= UINT8_MAX -> 0 <= nwords ->
  nwords * word_size <= SSIZE_MAX ->
  len dest = nwords * word_size -> len put_aside = word_size ->
  exists out, read_aligned fd dest nwords word_size put_aside 0 = Done out.
Proof.
  unfold UINT8_MAX, SSIZE_MAX. intros Hw Hn Hmax Hdest Hpa.
  assert (H64 : 2 ^ 63 - 1 < 2 ^ 64) by now vm_compute.
  unfold read_aligned. change (0 <? 0) with false. cbn [bind].
  assert (Hnb : to_size_t (nwords * word_size) = nwords * word_size)
    by (unfold to_size_t; apply Z.mod_small; nia).
  rewrite Hnb, Z.sub_0_r, Hnb.
  destruct (sys_read fd (nwords * word_size)) as [got fd'] eqn:Hread.
  destruct got as [bs|]; [|eauto].
  pose proof (sys_read_bound _ _ _ _ Hread ltac:(nia)) as Hbs.
  assert (Hbs0 : 0 <= len bs) by (unfold len; lia).
  destruct (store dest 0 bs) as [dest2|w] eqn:Hst.
  2:{ exfalso. unfold store in Hst. destruct bs as [|b bs]; [discriminate|].
      destruct (Z.leb_spec 0 0); [|lia].
      destruct (Z.leb_spec (0 + len (b :: bs)) (len dest)); [discriminate|lia]. }
  apply store_length in Hst. cbn [bind].
  unfold signed64, LLONG_MIN, LLONG_MAX.
  destruct (Z.leb_spec (- 2 ^ 63) (len bs + 0)); [|lia].
  destruct (Z.leb_spec (len bs + 0) (2 ^ 63 - 1)); [|lia].
  cbn [andb bind]. unfold c_div, c_mod.
  destruct (Z.eqb_spec word_size 0); [lia|]. cbn [bind].
  rewrite Z.rem_mod_nonneg by lia.
  pose proof (Z.mod_pos_bound (len bs + 0) word_size ltac:(lia)) as Hm.
  pose proof (Z.mod_le (len bs + 0) word_size ltac:(lia) ltac:(lia)) as Hle.
  unfold to_byte. rewrite (Z.mod_small _ 256) by lia.
  set (r := (len bs + 0) mod word_size) in *.
  unfold memcpy, load.
  destruct (Z.leb_spec r 0); [cbn [bind store]; eauto|].
  destruct (Z.leb_spec r (len put_aside)); [|lia]. cbn [bind].
  assert (Hk : len (firstn (Z.to_nat r) put_aside) = r)
    by (unfold len in *; rewrite length_firstn; lia).
  unfold store. destruct (firstn (Z.to_nat r) put_aside) as [|c cs] eqn:Hf;
    [cbn [bind]; eauto|].
  rewrite Hk, Hst.
  destruct (Z.leb_spec 0 (0 + nwords * word_size - r)); [|lia].
  destruct (Z.leb_spec (0 + nwords * word_size - r + r) (len dest)); [|lia].
  cbn [andb bind]. eauto.
Qed.

(** ** Record emitter *)

Lemma content_loop_round (todo : nat) (depth word_size addr_repr_width addr : Z)
  (w : world) (f : frame) (v : Z) (w' : world) :
  content_round word_size addr_repr_width addr w f = Done (Return v w') ->
  content_loop (S todo) depth word_size addr_repr_width addr w f = Done (v, w').
Proof. intros H. cbn [content_loop]. now rewrite H. Qed.

(** C5. In every round of the loop of [generate_mif_content] (so at an
    address below depth), if the refill by [read_aligned] yields zero
    words and leaves the carry empty, the function returns at once with
    the current address, the number of records written so far, and
    writes nothing more. For the three-byte input 0, 1, 2 with depth 4
    and width 8 the records of the addresses 0, 1, 2 are written and 3
    is returned. *)
Theorem early_stop_returns_emitted_count :
  (forall todo depth word_size addr_repr_width addr w f r,
      words_read f = 0 ->
      read_aligned (w_in w) (buffer f) INPUT_BUFFER_SIZE word_size
                   (put_aside_buffer f) (remainder_len f) = Done r ->
      ra_ret r = 0 -> ra_rem r = 0 ->
      addr + Z.of_nat (S todo) = depth ->
      content_loop (S todo) depth word_size addr_repr_width addr w f
      = Done (addr, warn (mkWorld (ra_in r) (w_out w) (w_err w)) WarnEOF)
      /\ addr < depth)
  /\ (forall j st,
        generate_mif_content j
          (mkWorld (plain_stream [0; 1; 2] st) open_sink []) 4 8
        = Done (3, mkWorld (plain_stream [] st)
                           (mkSink ("0 : 00;" ++ nl ++ "1 : 01;" ++ nl
                                    ++ "2 : 02;" ++ nl) None)
                           [WarnEOF])).
Proof.
  split.
  - intros todo depth word_size addr_repr_width addr w f r Hwr Hfill Hret Hrem Hinv.
    split; [|lia].
    apply content_loop_round. unfold content_round.
    rewrite Hwr. change (0 =? 0) with true. cbv iota.
    rewrite Hfill. cbn [bind]. rewrite Hret. change (0 <? 0) with false. cbv iota.
    unfold emit_record. cbn [words_read remainder_len].
    rewrite Hrem. reflexivity.
  - intros j st. now vm_compute.
Qed.

Lemma early_stop_returns_emitted_count_witness :
  content_loop 1 4 1 1 3 drained_world drained_frame
  = Done (3, warn (mkWorld (ra_in drained_fill) (w_out drained_world)
                           (w_err drained_world)) WarnEOF)
  /\ 3 < 4.
Proof.
  apply (proj1 early_stop_returns_emitted_count 0%nat 4 1 1 3
               drained_world drained_frame drained_fill).
  - reflexivity.
  - vm_compute. reflexivity.
  - reflexivity.
  - reflexivity.
  - simpl. lia.
Defined.

Lemma emit_record_return (word_size addr_repr_width addr : Z) (w : world)
  (f : frame) (v : Z) (w' : world) :
  emit_record word_size addr_repr_width addr w f = Done (Return v w') -> v = addr.
Proof.
  unfold emit_record.
  destruct ((words_read f =? 0) && (remainder_len f =? 0));
    [intros E; now inversion E|].
  destruct (sys_dprintf (w_out w) _); [|intros E; now inversion E].
  destruct (emit_word _ _ _ _ _) as [[[|] out2]|]; cbn [bind];
    intros E; now inversion E.
Qed.

Lemma content_round_return (word_size addr_repr_width addr : Z) (w : world)
  (f : frame) (v : Z) (w' : world) :
  content_round word_size addr_repr_width addr w f = Done (Return v w') -> v = addr.
Proof.
  unfold content_round. destruct (words_read f =? 0).
  - destruct (read_aligned _ _ _ _ _ _) as [r|]; cbn [bind]; [|discriminate].
    destruct (ra_ret r <? 0); [intros E; now inversion E|].
    apply emit_record_return.
  - apply emit_record_return.
Qed.

Lemma content_loop_range (todo : nat) :
  forall depth word_size addr_repr_width addr w f v w',
    addr + Z.of_nat todo = depth ->
    content_loop todo depth word_size addr_repr_width addr w f = Done (v, w') ->
    addr <= v <= depth.
Proof.
  induction todo as [|todo IH]; intros depth ws arw addr w f v w' Hinv H.
  - simpl in H. inversion H. lia.
  - cbn [content_loop] in H. open_bind H. destruct a as [v0 w0|w0 f0].
    + inversion H; subst. apply content_round_return in Ha. lia.
    + apply IH in H; lia.
Qed.

(** ** Width *)

Lemma read_aligned_zero_word_size (fd : stream) (dest : list Z) (nwords : Z)
  (put_aside : list Z) :
  hd_error (script fd) <> Some RdError ->
  read_aligned fd dest nwords 0 put_aside 0 = Fault DivisionByZero.
Proof.
  intros Hscript. unfold read_aligned. rewrite Z.mul_0_r.
  change (0 <? 0) with false. cbn [bind].
  change (to_size_t (to_size_t 0 - 0)) with 0.
  unfold sys_read. destruct (script fd) as [|[|n] rest].
  - reflexivity.
  - now elim Hscript.
  - replace (Z.min 0 (Z.max 1 n)) with 0 by lia. reflexivity.
Qed.

(** ** Short reads *)

(** C1 fails on the code. [read_aligned] never writes to [put_aside]:
    its last [memcpy] copies from [put_aside] into the buffer. Four
    bytes 1, 2, 3, 4 read in one call give the two-byte words (1, 2) and
    (3, 4). Read as three bytes and then one, the second call puts the
    first byte of [put_aside], whatever it holds, where the byte 3
    should be: the words are (1, 2) and (p0, 4). The records written by
    [generate_mif_content] differ in the same way. *)
Theorem short_read_drops_carry :
  forall p0 p1 st,
    (exists out,
        read_aligned (plain_stream [1; 2; 3; 4] st) (repeat 0 256) 128 2
                     [p0; p1] 0 = Done out
        /\ ra_ret out = 2 /\ ra_rem out = 0
        /\ word_at (ra_dest out) 2 0 = [1; 2]
        /\ word_at (ra_dest out) 2 1 = [3; 4])
    /\ (exists out1 out2,
          read_aligned (short_then_rest st) (repeat 0 256) 128 2 [p0; p1] 0
          = Done out1
          /\ ra_ret out1 = 1 /\ ra_rem out1 = 1
          /\ word_at (ra_dest out1) 2 0 = [1; 2]
          /\ read_aligned (ra_in out1) (ra_dest out1) 128 2 [p0; p1]
                          (ra_rem out1) = Done out2
          /\ ra_ret out2 = 1 /\ ra_rem out2 = 0
          /\ word_at (ra_dest out2) 2 0 = [p0; 4]
          /\ pending (ra_in out2) = [])
    /\ generate_mif_content zero_junk
         (mkWorld (plain_stream [1; 2; 3; 4] st) open_sink []) 2 16
       = Done (2, mkWorld (plain_stream [] st)
                          (mkSink ("0 : 0201;" ++ nl ++ "1 : 0403;" ++ nl) None)
                          [])
    /\ generate_mif_content zero_junk
         (mkWorld (short_then_rest st) open_sink []) 2 16
       = Done (2, mkWorld (plain_stream [] st)
                          (mkSink ("0 : 0201;" ++ nl ++ "1 : 0400;" ++ nl) None)
                          []).
Proof.
  intros p0 p1 st. split; [|split; [|split]].
  - eexists. split; [vm_compute; reflexivity|]. now vm_compute.
  - eexists. eexists. split; [vm_compute; reflexivity|].
    cbn [ra_ret ra_rem ra_dest ra_in].
    repeat (split; [now vm_compute|]).
    now vm_compute.
  - now vm_compute.
  - now vm_compute.
Qed.

(** ** Depth resolution *)

Lemma signed64_in_range (z : Z) :
  LLONG_MIN <= z <= LLONG_MAX -> signed64 z = Done z.
Proof.
  intros Hz. unfold signed64.
  destruct (Z.leb_spec LLONG_MIN z); [|lia].
  destruct (Z.leb_spec z LLONG_MAX); [reflexivity|lia].
Qed.

(** C3, as the code has it. When depth is negative and the input is a
    regular file, [generate_mif] takes the size of the file in bytes as
    the depth, whatever the width: a ten-byte regular file with width 16
    gets depth 10 in the header, and five records. When the input is not
    a regular file and depth is negative, [generate_mif] returns -1 with
    the diagnostic and the output untouched. *)
Theorem inferred_depth_is_file_size :
  (forall w depth width size,
      depth < 0 -> LLONG_MIN <= depth * width <= LLONG_MAX ->
      stat (w_in w) = StatRegular size -> 0 <= size ->
      generate_mif_validate w depth width = Done (w, Some size))
  /\ (forall j w depth width,
        depth < 0 -> LLONG_MIN <= depth * width <= LLONG_MAX ->
        stat (w_in w) = StatOther ->
        generate_mif j w depth width = Done (-1, warn w WarnDepthRequired)
        /\ w_out (warn w WarnDepthRequired) = w_out w)
  /\ generate_mif zero_junk ten_byte_file (-1) 16
     = Done (5, mkWorld (plain_stream [] (StatRegular 10))
                        (mkSink (header_text 10 16
                                 ++ "0 : 0201;" ++ nl ++ "1 : 0403;" ++ nl
                                 ++ "2 : 0605;" ++ nl ++ "3 : 0807;" ++ nl
                                 ++ "4 : 0a09;" ++ nl ++ "END;" ++ nl) None)
                        [WarnEOF]).
Proof.
  split; [|split].
  - intros w depth width size Hd Hrange Hstat Hsize.
    unfold generate_mif_validate. rewrite signed64_in_range by exact Hrange.
    cbn [bind]. unfold file_size. rewrite Hstat.
    destruct (Z.eqb_spec size (-1)); [lia|].
    destruct (Z.eqb_spec size (-2)); [lia|]. cbn [andb].
    destruct (Z.ltb_spec depth 0); [reflexivity|lia].
  - intros j w depth width Hd Hrange Hstat. split; [|reflexivity].
    unfold generate_mif, generate_mif_validate.
    rewrite signed64_in_range by exact Hrange.
    cbn [bind]. unfold file_size. rewrite Hstat.
    change (-2 =? -1) with false. change (-2 =? -2) with true. cbv iota.
    destruct (Z.ltb_spec depth 0); [reflexivity|lia].
  - now vm_compute.
Qed.

Lemma inferred_depth_is_file_size_witness :
  generate_mif_validate ten_byte_file (-1) 16 = Done (ten_byte_file, Some 10)
  /\ generate_mif zero_junk pipe_world (-1) 16
     = Done (-1, warn pipe_world WarnDepthRequired).
Proof.
  split.
  - apply (proj1 inferred_depth_is_file_size ten_byte_file (-1) 16 10).
    + lia.
    + unfold LLONG_MIN, LLONG_MAX. simpl. lia.
    + reflexivity.
    + lia.
  - apply (proj1 (proj2 inferred_depth_is_file_size) zero_junk pipe_world (-1) 16).
    + lia.
    + unfold LLONG_MIN, LLONG_MAX. simpl. lia.
    + reflexivity.
Defined.

(** C3 as stated fails: for the ten-byte regular file with width 16 the
    depth is 10, not 10 * 8 / 16 = 5. *)
Lemma inferred_depth_cex :
  generate_mif_validate ten_byte_file (-1) 16 = Done (ten_byte_file, Some 10)
  /\ generate_mif_validate ten_byte_file (-1) 16
     <> Done (ten_byte_file, Some (10 * 8 / 16)).
Proof.
  split; [now vm_compute|]. vm_compute. discriminate.
Qed.

(** ** Exit status *)

Lemma str_to_byte_status (str : strtol_result) (status : Z) :
  str_to_byte str = inl status -> status = 1 \/ status = 2.
Proof.
  unfold str_to_byte, BAD_NUMBER_FORMAT, OVERFLOW_ERROR.
  destruct (negb (st_all str)); [intros E; inversion E; auto|].
  destruct ((st_num str <? 0) || (UINT8_MAX <? st_num str));
    intros E; inversion E; auto.
Qed.

Lemma str_to_ll_status (str : strtol_result) (status : Z) :
  str_to_ll str = inl status -> status = 1 \/ status = 2.
Proof.
  unfold str_to_ll, BAD_NUMBER_FORMAT, OVERFLOW_ERROR.
  destruct (negb (st_all str)); [intros E; inversion E; auto|].
  destruct (st_erange str); intros E; inversion E; auto.
Qed.

Lemma parse_options_status (opts : list cli_option) :
  forall c status d,
    parse_options opts c = inl (status, d) -> 0 <= status <= 3.
Proof.
  induction opts as [|o opts IH]; intros c status d H; simpl in H;
    [discriminate|].
  destruct o as [a|a|name| |].
  - destruct (str_to_byte a) as [s0|width] eqn:E.
    + inversion H; subst. apply str_to_byte_status in E. lia.
    + eapply IH, H.
  - destruct (str_to_ll a) as [s0|depth] eqn:E.
    + inversion H; subst. apply str_to_ll_status in E. lia.
    + eapply IH, H.
  - eapply IH, H.
  - inversion H. unfold EXIT_SUCCESS. lia.
  - inversion H. unfold INVALID_ARGUMENTS. lia.
Qed.

Lemma main_finish_status (c : config) (in_fd out_fd words_written : Z)
  (w : world) (k : kernel) :
  let s := exit_status (main_finish c in_fd out_fd words_written w k) in
  s = 0 \/ s = FILE_CLOSE_FAILURE \/ s = GENRATOR_FAILURE.
Proof.
  unfold main_finish.
  destruct (negb (words_written =? cfg_depth c)).
  - destruct (safe_close (Some in_fd) k) as [[r1 fd1] k1].
    destruct (safe_close (Some out_fd) k1) as [[r2 fd2] k2].
    destruct (words_written <? 0); [simpl; auto|].
    destruct (safe_close fd1 k2) as [[r3 fd3] k3].
    destruct (negb r3); destruct (cfg_out_filename c);
      try destruct (safe_close fd2 k3) as [[r4 fd4] k4];
      try destruct (negb r4); simpl; auto.
  - destruct (safe_close (Some in_fd) k) as [[r3 fd3] k3].
    destruct (negb r3); destruct (cfg_out_filename c);
      try destruct (safe_close (Some out_fd) k3) as [[r4 fd4] k4];
      try destruct (negb r4); simpl; auto.
Qed.

Lemma parse_operands_status (operands : list string) (c : config) (status : Z)
  (d : diag) :
  parse_operands operands c = inl (status, d) -> status = INVALID_ARGUMENTS.
Proof.
  unfold parse_operands. destruct operands as [|a [|b l]]; intros E;
    now inversion E.
Qed.

Lemma main_status_range (m : machine) (opts : list cli_option)
  (operands : list string) (fin : finished) :
  main m opts operands = Done fin -> 0 <= exit_status fin <= 6.
Proof.
  unfold main. intros H.
  destruct (parse_options opts default_config) as [[s d]|c0] eqn:Ep.
  { inversion H; subst; simpl. apply parse_options_status in Ep. lia. }
  destruct (parse_operands operands c0) as [[s d]|c] eqn:Eo.
  { inversion H; subst; simpl. apply parse_operands_status in Eo.
    unfold INVALID_ARGUMENTS in Eo. lia. }
  assert (Hopen : forall k w, 0 <= exit_status (mkFinished FILE_OPEN_FAILURE w k) <= 6)
    by (intros; simpl; unfold FILE_OPEN_FAILURE; lia).
  destruct (negb (cfg_in_filename c =? "-")%string).
  - destruct (m_open_in m (cfg_in_filename c)) as [fin_|].
    + destruct (cfg_out_filename c) as [name|].
      * destruct (m_open_out m name) as [fout|].
        -- open_bind H. destruct a as [ww w]. inversion H; subst.
           pose proof (main_finish_status c 3 (if 3 =? 3 then 4 else 3) ww w (m_kernel m)) as S.
           unfold FILE_CLOSE_FAILURE, GENRATOR_FAILURE in S. simpl in S. lia.
        -- destruct (safe_close (Some 3) (m_kernel m)) as [[r1 fd1] k1].
           inversion H; subst. apply Hopen.
      * open_bind H. destruct a as [ww w]. inversion H; subst.
        pose proof (main_finish_status c 3 STDOUT_FILENO ww w (m_kernel m)) as S.
        unfold FILE_CLOSE_FAILURE, GENRATOR_FAILURE in S. simpl in S. lia.
    + inversion H; subst. simpl. unfold FILE_OPEN_FAILURE. lia.
  - destruct (cfg_out_filename c) as [name|].
    + destruct (m_open_out m name) as [fout|].
      * open_bind H. destruct a as [ww w]. inversion H; subst.
        pose proof (main_finish_status c STDIN_FILENO
                      (if STDIN_FILENO =? 3 then 4 else 3) ww w (m_kernel m)) as S.
        unfold FILE_CLOSE_FAILURE, GENRATOR_FAILURE in S. simpl in S. lia.
      * destruct (safe_close (Some STDIN_FILENO) (m_kernel m)) as [[r1 fd1] k1].
        inversion H; subst. apply Hopen.
    + open_bind H. destruct a as [ww w]. inversion H; subst.
      pose proof (main_finish_status c STDIN_FILENO STDOUT_FILENO ww w (m_kernel m)) as S.
      unfold FILE_CLOSE_FAILURE, GENRATOR_FAILURE in S. simpl in S. lia.
Qed.

Lemma safe_close_closed (k : kernel) :
  safe_close (Some (-1)) k = (true, Some (-1), k).
Proof. reflexivity. Qed.

Lemma safe_close_stores_minus_one (v : Z) (k : kernel) :
  snd (fst (safe_close (Some v) k)) = Some (-1).
Proof.
  unfold safe_close. destruct (Z.eqb_spec v (-1)) as [->|Hv]; reflexivity.
Qed.

(** What [main_finish] does when fewer words than [depth] were written
    and the count is not negative. *)
Lemma main_finish_early_stop (c : config) (in_fd out_fd words_written : Z)
  (w : world) (k : kernel) :
  0 <= words_written -> words_written <> cfg_depth c ->
  main_finish c in_fd out_fd words_written w k
  = mkFinished 0 w
      (snd (safe_close (Some out_fd) (snd (safe_close (Some in_fd) k)))).
Proof.
  intros Hw Hne. unfold main_finish.
  destruct (Z.eqb_spec words_written (cfg_depth c)); [contradiction|].
  cbn [negb].
  pose proof (safe_close_stores_minus_one in_fd k) as E1.
  destruct (safe_close (Some in_fd) k) as [[r1 fd1] k1]. cbn [fst snd] in *.
  pose proof (safe_close_stores_minus_one out_fd k1) as E2.
  destruct (safe_close (Some out_fd) k1) as [[r2 fd2] k2]. cbn [fst snd] in *.
  subst fd1 fd2.
  destruct (Z.ltb_spec words_written 0); [lia|].
  rewrite safe_close_closed. cbn [negb].
  destruct (cfg_out_filename c); [rewrite safe_close_closed|]; reflexivity.
Qed.

(** C6 fails on the code. [main] never uses [GENERATOR_EARLY_STOP]:
    whenever [generate_mif] returns a count that is not negative and
    differs from [depth], the process ends with status 0, the status of
    a complete run. The three-byte input with [--depth 4] ends with
    status 0 after the diagnostic of the early stop, as the four-byte
    input does; no run of [main] ends with a status above 6. *)
Theorem early_stop_exits_with_success :
  (forall c in_fd out_fd words_written w k,
      0 <= words_written -> words_written <> cfg_depth c ->
      exit_status (main_finish c in_fd out_fd words_written w k) = EXIT_SUCCESS)
  /\ (exists fin,
        main (pipe_machine [0; 1; 2]) [OptDepth (number 4)] [] = Done fin
        /\ exit_status fin = EXIT_SUCCESS
        /\ w_err (f_world fin) = [WarnEOF])
  /\ (exists fin,
        main (pipe_machine [0; 1; 2; 3]) [OptDepth (number 4)] [] = Done fin
        /\ exit_status fin = EXIT_SUCCESS
        /\ w_err (f_world fin) = [])
  /\ (forall m opts operands fin,
        main m opts operands = Done fin ->
        exit_status fin <> GENERATOR_EARLY_STOP).
Proof.
  split; [|split; [|split]].
  - intros c in_fd out_fd words_written w k Hw Hne.
    now rewrite main_finish_early_stop.
  - eexists. split; [vm_compute; reflexivity|]. split; reflexivity.
  - eexists. split; [vm_compute; reflexivity|]. split; reflexivity.
  - intros m opts operands fin H. apply main_status_range in H.
    unfold GENERATOR_EARLY_STOP. lia.
Qed.

Lemma early_stop_exits_with_success_witness :
  exit_status (main_finish (mkConfig 4 8 "-" None) 0 1 3 drained_world
                           quiet_kernel)
  = EXIT_SUCCESS.
Proof.
  apply (proj1 early_stop_exits_with_success); simpl; lia.
Defined.

(** ** Closing twice *)

(** C10. After [safe_close] on a pointer that is not NULL the stored
    descriptor is -1, and a further call on it returns true, leaves the
    -1 in place and makes no [close] call. So in [main], when the count
    was not negative and differed from [depth], the calls of the final
    clean-up close nothing: each descriptor is closed exactly once. *)
Theorem safe_close_idempotent :
  (forall v k,
      snd (fst (safe_close (Some v) k)) = Some (-1)
      /\ safe_close (snd (fst (safe_close (Some v) k)))
                    (snd (safe_close (Some v) k))
         = (true, Some (-1), snd (safe_close (Some v) k)))
  /\ (forall c in_fd out_fd words_written w k,
        0 <= in_fd -> 0 <= out_fd ->
        0 <= words_written -> words_written <> cfg_depth c ->
        close_calls (f_kernel (main_finish c in_fd out_fd words_written w k))
        = close_calls k ++ [in_fd; out_fd]).
Proof.
  split.
  - intros v k. split; [apply safe_close_stores_minus_one|].
    rewrite safe_close_stores_minus_one. apply safe_close_closed.
  - intros c in_fd out_fd words_written w k Hin Hout Hw Hne.
    rewrite main_finish_early_stop by assumption. cbn [f_kernel].
    unfold safe_close.
    destruct (Z.eqb_spec in_fd (-1)); [lia|].
    destruct (Z.eqb_spec out_fd (-1)); [lia|].
    cbn [sys_close fst snd close_calls]. now rewrite <- app_assoc.
Qed.

Lemma safe_close_idempotent_witness :
  close_calls (f_kernel (main_finish (mkConfig 4 8 "-" None) 0 1 3
                                     drained_world quiet_kernel))
  = close_calls quiet_kernel ++ [0; 1].
Proof.
  apply (proj2 safe_close_idempotent); simpl; lia.
Defined.

(** * Further properties *)

(** ** Arrays *)

Lemma len_nonneg (l : list Z) : 0 <= len l.
Proof. unfold len. lia. Qed.

Lemma store_splice (dest : list Z) (off : Z) (bs : list Z) :
  0 <= off -> off + len bs <= len dest ->
  store dest off bs = Done (splice dest off bs).
Proof.
  intros Hoff Hfit. unfold store, splice. destruct bs as [|b bs].
  - cbn [app len List.length Z.of_nat]. rewrite Z.add_0_r, firstn_skipn.
    reflexivity.
  - destruct (Z.leb_spec 0 off); [|lia].
    destruct (Z.leb_spec (off + len (b :: bs)) (len dest)); [reflexivity|lia].
Qed.

Lemma load_firstn (src : list Z) (n : Z) :
  0 <= n <= len src -> load src n = Done (firstn (Z.to_nat n) src).
Proof.
  intros Hn. unfold load. destruct (Z.leb_spec n 0).
  - replace n with 0 by lia. reflexivity.
  - destruct (Z.leb_spec n (len src)); [reflexivity|lia].
Qed.

Lemma len_splice (dest : list Z) (off : Z) (bs : list Z) :
  0 <= off -> off + len bs <= len dest -> len (splice dest off bs) = len dest.
Proof.
  intros Hoff Hfit. unfold splice, len in *.
  rewrite !length_app, length_firstn, length_skipn. lia.
Qed.

Lemma firstn_app_le {A : Type} (k : nat) (l l' : list A) :
  (k <= List.length l)%nat -> firstn k (l ++ l') = firstn k l.
Proof.
  intros Hk. rewrite firstn_app.
  replace (k - List.length l)%nat with 0%nat by lia.
  cbn [firstn]. apply app_nil_r.
Qed.

Lemma firstn_splice_before (dest : list Z) (off : Z) (bs : list Z) (k : nat) :
  0 <= off <= len dest -> (k <= Z.to_nat off)%nat ->
  firstn k (splice dest off bs) = firstn k dest.
Proof.
  intros Hoff Hk. unfold splice. rewrite firstn_app_le.
  - rewrite firstn_firstn. f_equal. lia.
  - rewrite length_firstn. unfold len in Hoff. lia.
Qed.

Lemma firstn_splice_front (dest bs : list Z) (k : nat) :
  (k <= List.length bs)%nat ->
  firstn k (splice dest 0 bs) = firstn k bs.
Proof.
  intros Hk. unfold splice. cbn [Z.to_nat firstn app].
  now apply firstn_app_le.
Qed.

Lemma Forall_firstn {A : Type} (P : A -> Prop) (l : list A) (n : nat) :
  Forall P l -> Forall P (firstn n l).
Proof.
  intros H. rewrite Forall_forall in *. intros x Hx.
  apply H. rewrite <- (firstn_skipn n l). apply in_or_app. now left.
Qed.

Lemma Forall_skipn {A : Type} (P : A -> Prop) (l : list A) (n : nat) :
  Forall P l -> Forall P (skipn n l).
Proof.
  intros H. rewrite Forall_forall in *. intros x Hx.
  apply H. rewrite <- (firstn_skipn n l). apply in_or_app. now right.
Qed.

Lemma bytes_splice (dest : list Z) (off : Z) (bs : list Z) :
  Forall is_byte dest -> Forall is_byte bs -> Forall is_byte (splice dest off bs).
Proof.
  intros Hd Hb. unfold splice.
  apply Forall_app; split; [now apply Forall_firstn|].
  apply Forall_app; split; [exact Hb | now apply Forall_skipn].
Qed.

Lemma bytes_fresh_array (f : nat -> Z) (size : Z) :
  Forall is_byte (fresh_array f size).
Proof.
  unfold fresh_array. apply Forall_forall. intros x Hx.
  apply in_map_iff in Hx. destruct Hx as (i & <- & _).
  unfold is_byte, to_byte. apply Z.mod_pos_bound. lia.
Qed.

Lemma len_fresh_array (f : nat -> Z) (size : Z) :
  0 <= size -> len (fresh_array f size) = size.
Proof.
  intros Hs. unfold len, fresh_array. rewrite length_map, length_seq. lia.
Qed.

(** A word depends only on the bytes up to its end. *)
Lemma word_at_prefix (l l' : list Z) (word_size i k : Z) :
  0 <= word_size -> 0 <= i -> (i + 1) * word_size <= k ->
  firstn (Z.to_nat k) l = firstn (Z.to_nat k) l' ->
  word_at l word_size i = word_at l' word_size i.
Proof.
  intros Hw Hi Hk E. unfold word_at.
  rewrite !firstn_skipn_comm. f_equal.
  assert (Hmin : forall m : list Z,
             firstn (Z.to_nat (i * word_size) + Z.to_nat word_size) m
             = firstn (Z.to_nat (i * word_size) + Z.to_nat word_size)
                      (firstn (Z.to_nat k) m)).
  { intros m. rewrite firstn_firstn. f_equal. nia. }
  rewrite (Hmin l), (Hmin l'), E. reflexivity.
Qed.

Lemma word_at_skipn (l : list Z) (word_size i k : Z) :
  0 <= word_size -> 0 <= i -> 0 <= k ->
  word_at (skipn (Z.to_nat (k * word_size)) l) word_size i
  = word_at l word_size (k + i).
Proof.
  intros Hw Hi Hk. unfold word_at. rewrite skipn_skipn. do 2 f_equal. nia.
Qed.

(** ** A fill with an empty carry *)

Lemma sys_read_splits (fd fd' : stream) (count : Z) (bs : list Z) :
  sys_read fd count = (Some bs, fd') ->
  pending fd = bs ++ pending fd' /\ stat fd' = stat fd.
Proof.
  unfold sys_read. intros E.
  destruct (script fd) as [|[|n] rest]; inversion E; subst; cbn [pending stat];
    now rewrite firstn_skipn.
Qed.

(** The buffer after a fill that started with an empty carry and
    transferred [bs]. *)
Lemma read_aligned_fresh_fill (fd fd' : stream) (dest : list Z)
  (nwords word_size : Z) (put_aside bs : list Z) :
  1 <= word_size <= UINT8_MAX -> 0 <= nwords ->
  nwords * word_size <= SSIZE_MAX ->
  len dest = nwords * word_size -> len put_aside = word_size ->
  sys_read fd (nwords * word_size) = (Some bs, fd') ->
  read_aligned fd dest nwords word_size put_aside 0
  = Done (mkRa (len bs / word_size)
               (splice (splice dest 0 bs)
                       (nwords * word_size - len bs mod word_size)
                       (firstn (Z.to_nat (len bs mod word_size)) put_aside))
               (len bs mod word_size) fd').
Proof.
  unfold UINT8_MAX, SSIZE_MAX. intros Hw Hn Hmax Hdest Hpa Hread.
  assert (H64 : 2 ^ 63 - 1 < 2 ^ 64) by now vm_compute.
  pose proof (sys_read_bound _ _ _ _ Hread ltac:(nia)) as Hbs.
  pose proof (len_nonneg bs) as Hbs0.
  pose proof (Z.mod_pos_bound (len bs) word_size ltac:(lia)) as Hm.
  pose proof (Z.mod_le (len bs) word_size ltac:(lia) ltac:(lia)) as Hle.
  unfold read_aligned. change (0 <? 0) with false. cbn [bind].
  assert (Hnb : to_size_t (nwords * word_size) = nwords * word_size)
    by (unfold to_size_t; apply Z.mod_small; nia).
  rewrite Hnb, Z.sub_0_r, Hnb, Hread.
  rewrite store_splice by lia. cbn [bind].
  rewrite Z.add_0_r.
  rewrite signed64_in_range by (unfold LLONG_MIN, LLONG_MAX; lia). cbn [bind].
  unfold c_div, c_mod. destruct (Z.eqb_spec word_size 0); [lia|]. cbn [bind].
  rewrite Z.quot_div_nonneg, Z.rem_mod_nonneg by lia.
  unfold to_byte. rewrite (Z.mod_small _ 256) by lia.
  unfold memcpy. rewrite load_firstn by lia. cbn [bind].
  assert (Hk : len (firstn (Z.to_nat (len bs mod word_size)) put_aside)
               = len bs mod word_size)
    by (unfold len in *; rewrite length_firstn; lia).
  rewrite store_splice.
  - cbn [bind]. rewrite Z.add_0_l. reflexivity.
  - lia.
  - rewrite Hk, len_splice by lia. lia.
Qed.

(** What is in that buffer. *)
Lemma fresh_fill_buffer (dest : list Z) (nwords word_size : Z)
  (put_aside bs : list Z) :
  1 <= word_size -> len dest = nwords * word_size -> len put_aside = word_size ->
  len bs <= nwords * word_size ->
  let dest' := splice (splice dest 0 bs)
                      (nwords * word_size - len bs mod word_size)
                      (firstn (Z.to_nat (len bs mod word_size)) put_aside) in
  len dest' = len dest
  /\ firstn (Z.to_nat (len bs / word_size * word_size)) dest'
     = firstn (Z.to_nat (len bs / word_size * word_size)) bs
  /\ (Forall is_byte dest -> Forall is_byte put_aside -> Forall is_byte bs ->
      Forall is_byte dest').
Proof.
  intros Hw Hdest Hpa Hbs dest'.
  pose proof (len_nonneg bs) as Hbs0.
  pose proof (Z.mod_pos_bound (len bs) word_size ltac:(lia)) as Hm.
  pose proof (Z.mod_le (len bs) word_size ltac:(lia) ltac:(lia)) as Hle.
  pose proof (Z.div_mod (len bs) word_size ltac:(lia)) as Hd.
  assert (Hk : len (firstn (Z.to_nat (len bs mod word_size)) put_aside)
               = len bs mod word_size)
    by (unfold len in *; rewrite length_firstn; lia).
  assert (H1 : len (splice dest 0 bs) = len dest) by (apply len_splice; lia).
  split; [|split].
  - unfold dest'. rewrite len_splice; lia.
  - unfold dest'. rewrite firstn_splice_before by nia.
    apply firstn_splice_front. unfold len in *. nia.
  - intros Bd Bp Bb. unfold dest'.
    apply bytes_splice; [now apply bytes_splice | now apply Forall_firstn].
Qed.


(** ** Records *)

Lemma emit_word_full (buffer : list Z) (word_size word_idx : Z) (out : sink) :
  1 <= word_size -> 0 <= word_idx < INPUT_BUFFER_SIZE ->
  len buffer = INPUT_BUFFER_SIZE * word_size -> Forall is_byte buffer ->
  quota out = None ->
  emit_word (Z.to_nat word_size) out buffer word_size word_idx
  = Done (true,
          mkSink (text out
                  ++ format_word_bytes (word_at buffer word_size word_idx)
                  ++ ";" ++ nl)
                 None).
Proof.
  intros Hw Hi Hlen Hbytes Hq.
  assert (Hl : List.length (word_at buffer word_size word_idx)
               = Z.to_nat word_size).
  { unfold word_at. rewrite length_firstn, length_skipn.
    unfold len, INPUT_BUFFER_SIZE in *. nia. }
  rewrite (emit_word_tail buffer word_size word_idx Hw Hi Hlen Hbytes)
    by (first [lia | exact Hq]).
  do 4 f_equal. unfold field_tail, format_word_bytes.
  rewrite firstn_all2 by lia.
  destruct (Z.to_nat word_size) eqn:E; [lia | reflexivity].
Qed.

Lemma records_app (width word_size : Z) (data : list Z) (m : nat) :
  forall addr idx n,
    records width word_size data addr idx (m + n)
    = (records width word_size data addr idx m
       ++ records width word_size data (addr + Z.of_nat m) (idx + Z.of_nat m) n)%string.
Proof.
  induction m as [|m IH]; intros addr idx n.
  - cbn [records Nat.add append Z.of_nat]. now rewrite !Z.add_0_r.
  - cbn [records Nat.add]. rewrite IH. rewrite !append_assoc.
    do 6 f_equal. f_equal; lia.
Qed.

Lemma records_ext (width word_size : Z) (d d' : list Z) (n : nat) :
  forall addr idx idx',
    (forall i, 0 <= i < Z.of_nat n ->
               word_at d word_size (idx + i) = word_at d' word_size (idx' + i)) ->
    records width word_size d addr idx n = records width word_size d' addr idx' n.
Proof.
  induction n as [|n IH]; intros addr idx idx' H; [reflexivity|].
  cbn [records]. do 3 f_equal.
  - specialize (H 0 ltac:(lia)). rewrite !Z.add_0_r in H. now rewrite H.
  - do 2 f_equal. apply IH. intros i Hi.
    specialize (H (1 + i) ltac:(lia)).
    now rewrite !Z.add_assoc in H.
Qed.

(** [m] rounds that find their words in the buffer. *)
Lemma drain_buffer (m : nat) :
  forall todo depth word_size addr_repr_width addr w f,
    1 <= word_size ->
    len (buffer f) = INPUT_BUFFER_SIZE * word_size ->
    Forall is_byte (buffer f) -> quota (w_out w) = None ->
    0 <= word_idx f -> word_idx f + Z.of_nat m <= INPUT_BUFFER_SIZE ->
    Z.of_nat m <= words_read f ->
    content_loop (m + todo) depth word_size addr_repr_width addr w f
    = content_loop todo depth word_size addr_repr_width (addr + Z.of_nat m)
        (with_out w
           (mkSink (text (w_out w)
                    ++ records addr_repr_width word_size (buffer f) addr
                               (word_idx f) m)
                   None))
        (mkFrame (buffer f) (words_read f - Z.of_nat m) (put_aside_buffer f)
                 (remainder_len f) (word_idx f + Z.of_nat m)).
Proof.
  induction m as [|m IH];
    intros todo depth word_size arw addr w f Hw Hlen Hbytes Hq Hidx Hfit Hwr.
  - cbn [Nat.add records Z.of_nat]. rewrite append_nil_r, !Z.add_0_r, Z.sub_0_r.
    destruct w as [i [t q] e], f as [b wr p r ix]. cbn in *. now subst q.
  - cbn [Nat.add content_loop]. unfold content_round.
    destruct (Z.eqb_spec (words_read f) 0); [lia|].
    unfold emit_record.
    destruct (Z.eqb_spec (words_read f) 0); [lia|]. cbn [andb].
    unfold sys_dprintf at 1. rewrite Hq.
    rewrite emit_word_full by (first [lia | assumption | reflexivity]).
    cbn [bind text]. rewrite IH; cbn [buffer words_read word_idx w_out with_out
                                      quota text put_aside_buffer remainder_len];
      try assumption; try reflexivity; try lia.
    f_equal; [lia| |].
    + unfold with_out. cbn [w_in w_err]. do 2 f_equal.
      cbn [records]. now rewrite !append_assoc.
    + f_equal; lia.
Qed.

(** ** Runs without short reads *)

Lemma content_loop_refilled (todo : nat) (depth word_size addr_repr_width addr : Z)
  (w : world) (f : frame) (r : ra_out) :
  words_read f = 0 ->
  read_aligned (w_in w) (buffer f) INPUT_BUFFER_SIZE word_size
               (put_aside_buffer f) (remainder_len f) = Done r ->
  0 < ra_ret r ->
  content_loop (S todo) depth word_size addr_repr_width addr w f
  = content_loop (S todo) depth word_size addr_repr_width addr
      (mkWorld (ra_in r) (w_out w) (w_err w))
      (mkFrame (ra_dest r) (ra_ret r) (put_aside_buffer f) (ra_rem r) 0).
Proof.
  intros Hwr Hfill Hret. cbn [content_loop]. unfold content_round.
  rewrite Hwr. change (0 =? 0) with true. cbv iota.
  rewrite Hfill. cbn [bind words_read].
  destruct (Z.ltb_spec (ra_ret r) 0); [lia|].
  destruct (Z.eqb_spec (ra_ret r) 0); [lia|]. reflexivity.
Qed.

Lemma plain_read (data : list Z) (st : stat_info) (count : Z) :
  sys_read (plain_stream data st) count
  = (Some (firstn (Z.to_nat count) data),
     plain_stream (skipn (Z.to_nat count) data) st).
Proof. reflexivity. Qed.

Lemma len_firstn_min (l : list Z) (c : Z) :
  0 <= c -> len (firstn (Z.to_nat c) l) = Z.min c (len l).
Proof. intros Hc. unfold len. rewrite length_firstn. lia. Qed.

Lemma len_skipn_sub (l : list Z) (c : Z) :
  0 <= c <= len l -> len (skipn (Z.to_nat c) l) = len l - c.
Proof. intros Hc. unfold len in *. rewrite length_skipn. lia. Qed.

Lemma skipn_past (l : list Z) (c : Z) :
  len l <= c -> skipn (Z.to_nat c) l = [].
Proof. intros Hc. apply skipn_all2. unfold len in Hc. lia. Qed.

Lemma content_loop_plain (N : nat) :
  forall todo data addr t err f st depth word_size addr_repr_width,
    (todo <= N)%nat ->
    1 <= word_size <= UINT8_MAX -> ready word_size f -> Forall is_byte data ->
    depth = addr + Z.of_nat todo ->
    (Z.of_nat todo <= len data / word_size \/ len data mod word_size = 0) ->
    exists k,
      content_loop todo depth word_size addr_repr_width addr
        (mkWorld (plain_stream data st) (mkSink t None) err) f
      = Done (addr + Z.min (Z.of_nat todo) (len data / word_size),
              mkWorld (plain_stream (skipn k data) st)
                (mkSink (t ++ records addr_repr_width word_size data addr 0
                                 (Z.to_nat (Z.min (Z.of_nat todo)
                                                  (len data / word_size))))
                        None)
                (if Z.of_nat todo <=? len data / word_size
                 then err else err ++ [WarnEOF]))
      /\ (len data / word_size < Z.of_nat todo -> skipn k data = []).
Proof.
  induction N as [|N IH];
    intros todo data addr t err f st depth ws arw HN Hw Hready Hdata Hdepth Hcase;
    pose proof (len_nonneg data) as HL;
    assert (Hq0 : 0 <= len data / ws) by (apply Z.div_pos; unfold UINT8_MAX in *; lia);
    (destruct todo as [|todo];
     [ exists 0%nat; cbn [content_loop skipn Z.of_nat];
       rewrite Z.min_l by lia; cbn [Z.to_nat records];
       rewrite append_nil_r;
       destruct (Z.leb_spec 0 (len data / ws)); [|lia];
       split; [subst depth; do 2 f_equal; lia | lia]
     | ]); [lia|].
  unfold UINT8_MAX in Hw.
  destruct Hready as (Hblen & Hbbytes & Hplen & Hpbytes & Hwr & Hrem).
  unfold INPUT_BUFFER_SIZE in Hblen.
  set (c := 128 * ws) in *.
  set (bs := firstn (Z.to_nat c) data).
  assert (Hbs : len bs = Z.min c (len data)) by (apply len_firstn_min; lia).
  assert (Hfill := read_aligned_fresh_fill (plain_stream data st) _ (buffer f)
                     128 ws (put_aside_buffer f) bs
                     ltac:(unfold UINT8_MAX; lia) ltac:(lia)
                     ltac:(unfold SSIZE_MAX; lia) Hblen Hplen
                     (plain_read data st c)).
  destruct (fresh_fill_buffer (buffer f) 128 ws (put_aside_buffer f) bs
              ltac:(lia) Hblen Hplen ltac:(fold c; lia))
    as (Hdlen & Hdfirst & Hdbytes).
  specialize (Hdbytes Hbbytes Hpbytes (Forall_firstn _ _ _ Hdata)).
  fold c in Hfill, Hdlen, Hdfirst, Hdbytes.
  set (dest' := splice (splice (buffer f) 0 bs) (c - len bs mod ws)
                       (firstn (Z.to_nat (len bs mod ws)) (put_aside_buffer f)))
    in *.
  pose proof (Z.div_mod (len bs) ws ltac:(lia)) as Hbd.
  pose proof (Z.mod_pos_bound (len bs) ws ltac:(lia)) as Hbm.
  pose proof (Z.div_mod (len data) ws ltac:(lia)) as Hdd.
  pose proof (Z.mod_pos_bound (len data) ws ltac:(lia)) as Hdm.
  assert (Hbq0 : 0 <= len bs / ws) by (apply Z.div_pos; lia).
  assert (Hfill' : read_aligned
                     (w_in (mkWorld (plain_stream data st) (mkSink t None) err))
                     (buffer f) INPUT_BUFFER_SIZE ws (put_aside_buffer f)
                     (remainder_len f)
                   = Done (mkRa (len bs / ws) dest' (len bs mod ws)
                                (plain_stream (skipn (Z.to_nat c) data) st)))
    by (cbn [w_in]; rewrite Hrem; exact Hfill).
  destruct (Z.eq_dec (len bs / ws) 0) as [Hz|Hnz].
  - (* nothing left to read *)
    assert (Hsmall : len bs < ws) by nia.
    assert (Hall : len bs = len data) by lia.
    assert (Hdz : len data / ws = 0) by (rewrite <- Hall; exact Hz).
    assert (Hempty : len data = 0) by lia.
    exists (Z.to_nat c). split; [|intros _; apply skipn_past; lia].
    cbn [content_loop]. unfold content_round.
    rewrite Hwr. change (0 =? 0) with true. cbv iota.
    rewrite Hfill'. cbn [bind ra_ret ra_rem ra_in ra_dest].
    rewrite Hz. change (0 <? 0) with false. cbv iota.
    unfold emit_record. cbn [words_read remainder_len].
    assert (Hbm0 : len bs mod ws = 0)
      by (rewrite Hall, Hempty; apply Z.mod_0_l; lia).
    rewrite Hbm0. change ((0 =? 0) && (0 =? 0)) with true.
    cbv iota. cbn [bind].
    rewrite Hdz, Z.min_r by lia. cbn [Z.to_nat records].
    rewrite append_nil_r, Z.add_0_r.
    destruct (Z.leb_spec (Z.of_nat (S todo)) 0); [lia|]. reflexivity.
  - (* at least one word was read *)
    rewrite (content_loop_refilled todo depth ws arw addr _ f _ Hwr Hfill')
      by (cbn [ra_ret]; lia).
    cbn [ra_ret ra_rem ra_in ra_dest w_out w_err].
    assert (Hcap : len bs / ws <= 128) by (apply Z.div_le_upper_bound; lia).
    set (m := Z.to_nat (Z.min (Z.of_nat (S todo)) (len bs / ws))).
    assert (Hm : Z.of_nat m = Z.min (Z.of_nat (S todo)) (len bs / ws))
      by (unfold m; lia).
    assert (Hsplit : content_loop (S todo) = content_loop (m + (S todo - m)))
      by (f_equal; lia).
    rewrite Hsplit. clear Hsplit.
    rewrite drain_buffer;
      cbn [buffer words_read word_idx w_out quota text put_aside_buffer
           remainder_len with_out w_in w_err];
      try assumption; try reflexivity; try (unfold INPUT_BUFFER_SIZE; lia).
    assert (Hle : len bs / ws <= len data / ws)
      by (apply Z.div_le_mono; lia).
    assert (Hrec : records arw ws dest' addr 0 m = records arw ws data addr 0 m).
    { apply records_ext. intros i Hi. rewrite !Z.add_0_l.
      rewrite (word_at_prefix dest' bs ws i (len bs / ws * ws))
        by (first [lia | nia | exact Hdfirst]).
      apply (word_at_prefix bs data ws i (len bs / ws * ws)); try lia; try nia.
      set (kk := Z.to_nat (len bs / ws * ws)).
      assert (Hkk : (kk <= Z.to_nat c)%nat) by (unfold kk; nia).
      unfold bs. rewrite firstn_firstn. f_equal. lia. }
    rewrite Hrec. unfold with_out. cbn [w_in w_err].
    destruct (Z.le_gt_cases (Z.of_nat (S todo)) (len bs / ws)) as [Hdone|Hmore].
    + (* the buffer holds all the words still wanted *)
      replace (S todo - m)%nat with 0%nat by lia. cbn [content_loop].
      exists (Z.to_nat c). split; [|lia].
      rewrite Z.min_l by lia.
      replace m with (Z.to_nat (Z.of_nat (S todo))) by lia.
      destruct (Z.leb_spec (Z.of_nat (S todo)) (len data / ws)); [|lia].
      subst depth. reflexivity.
    + (* the buffer is used up and the loop goes on *)
      assert (Hmz : Z.of_nat m = len bs / ws) by lia.
      assert (Hfacts : len bs mod ws = 0
                       /\ len (skipn (Z.to_nat c) data) / ws
                          = len data / ws - Z.of_nat m
                       /\ (len data mod ws = 0 ->
                           len (skipn (Z.to_nat c) data) mod ws = 0)
                       /\ (forall i, 0 <= i < len (skipn (Z.to_nat c) data) / ws ->
                                     word_at (skipn (Z.to_nat c) data) ws (0 + i)
                                     = word_at data ws (0 + Z.of_nat m + i))).
      { destruct (Z.le_gt_cases c (len data)) as [Hfull|Hshort].
        - assert (Hbc : len bs = c) by lia.
          assert (H128 : len bs / ws = 128)
            by (rewrite Hbc; unfold c; apply Z.div_mul; lia).
          assert (Hsk : len (skipn (Z.to_nat c) data) = len data - c)
            by (apply len_skipn_sub; lia).
          assert (Hsum : len data = len (skipn (Z.to_nat c) data) + 128 * ws)
            by (fold c; lia).
          split; [|split; [|split]].
          + rewrite Hbc. unfold c. apply Z.mod_mul. lia.
          + rewrite Hmz, H128, Hsum at 1. rewrite Z.div_add by lia. lia.
          + intros H0. rewrite Hsum in H0. rewrite Z.mod_add in H0 by lia.
            exact H0.
          + intros i Hi. rewrite Hmz, H128. unfold c.
            rewrite word_at_skipn by lia. f_equal.
        - assert (Hnil : skipn (Z.to_nat c) data = []) by (apply skipn_past; lia).
          rewrite Hnil. change (len []) with 0.
          assert (Hbd' : len bs = len data) by lia.
          destruct Hcase as [Hc|Hc]; [rewrite Hbd' in Hmore; lia|].
          split; [|split; [|split]].
          + rewrite Hbd'. exact Hc.
          + rewrite Hmz, Hbd'. rewrite Z.div_0_l by lia. lia.
          + intros _. apply Z.mod_0_l. lia.
          + intros i Hi. rewrite Z.div_0_l in Hi by lia. lia. }
      destruct Hfacts as (Hrem0 & Hquot & Hmod & Hshift).
      destruct (IH (S todo - m)%nat (skipn (Z.to_nat c) data)
                   (addr + Z.of_nat m)
                   (t ++ records arw ws data addr 0 m)%string err
                   (mkFrame dest' (len bs / ws - Z.of_nat m) (put_aside_buffer f)
                            (len bs mod ws) (0 + Z.of_nat m))
                   st depth ws arw)
        as (k & Hrun & Hrest).
      * lia.
      * unfold UINT8_MAX. lia.
      * unfold ready, INPUT_BUFFER_SIZE.
        cbn [buffer put_aside_buffer words_read remainder_len].
        fold c. repeat split; try assumption; lia.
      * now apply Forall_skipn.
      * lia.
      * destruct Hcase as [Hc|Hc]; [left; lia | right; auto].
      * exists (k + Z.to_nat c)%nat. rewrite <- skipn_skipn. split.
        -- rewrite Hrun. rewrite Hquot.
           assert (Hmin : Z.min (Z.of_nat (S todo - m)) (len data / ws - Z.of_nat m)
                          = Z.min (Z.of_nat (S todo)) (len data / ws) - Z.of_nat m)
             by lia.
           rewrite Hmin.
           assert (Hn : Z.to_nat (Z.min (Z.of_nat (S todo)) (len data / ws))
                        = (m + Z.to_nat (Z.min (Z.of_nat (S todo)) (len data / ws)
                                         - Z.of_nat m))%nat) by lia.
           rewrite Hn. rewrite records_app, append_assoc.
           rewrite (records_ext arw ws (skipn (Z.to_nat c) data) data _
                                (addr + Z.of_nat m) 0 (0 + Z.of_nat m))
             by (intros i Hi; apply Hshift; lia).
           f_equal. f_equal; [lia|]. f_equal.
           destruct (Z.leb_spec (Z.of_nat (S todo - m)) (len data / ws - Z.of_nat m)),
                    (Z.leb_spec (Z.of_nat (S todo)) (len data / ws));
             first [reflexivity | lia].
        -- intros Hlt. apply Hrest. lia.
Qed.

Lemma word_size_of_width (width : Z) :
  8 <= width <= UINT8_MAX ->
  to_byte (Z.quot width 8) = width / 8 /\ 1 <= width / 8 <= 31.
Proof.
  unfold UINT8_MAX. intros Hw. rewrite Z.quot_div_nonneg by lia.
  assert (1 <= width / 8) by (apply Z.div_le_lower_bound; lia).
  assert (width / 8 < 32) by (apply Z.div_lt_upper_bound; lia).
  split; [|lia]. unfold to_byte. apply Z.mod_small. lia.
Qed.

Lemma num_len_of_depth (depth : Z) :
  num_len (to_ull (depth - 1)) 16
  = Done (Z.of_nat (ndigits 15 (to_ull (depth - 1)))).
Proof.
  apply num_len_16. unfold to_ull. apply Z.mod_pos_bound. now vm_compute.
Qed.

Lemma generate_mif_content_plain (j : junk) (data : list Z) (st : stat_info)
  (t : string) (err : list diag) (depth width : Z) :
  8 <= width <= UINT8_MAX -> Forall is_byte data -> 0 <= depth <= LLONG_MAX ->
  (depth <= len data / (width / 8) \/ len data mod (width / 8) = 0) ->
  exists k addr_repr_width,
    num_len (to_ull (depth - 1)) 16 = Done addr_repr_width
    /\ generate_mif_content j
         (mkWorld (plain_stream data st) (mkSink t None) err) depth width
       = Done (Z.min depth (len data / (width / 8)),
               mkWorld (plain_stream (skipn k data) st)
                 (mkSink (t ++ records addr_repr_width (width / 8) data 0 0
                                  (Z.to_nat (Z.min depth (len data / (width / 8)))))
                         None)
                 (if depth <=? len data / (width / 8)
                  then err else err ++ [WarnEOF]))
    /\ (len data / (width / 8) < depth -> skipn k data = []).
Proof.
  intros Hw Hdata Hd Hcase.
  destruct (word_size_of_width width Hw) as [Hws Hrange].
  destruct (content_loop_plain (Z.to_nat depth) (Z.to_nat depth) data 0 t err
              (mkFrame (fresh_array (junk_buffer j)
                                    (INPUT_BUFFER_SIZE * (width / 8)))
                       0 (fresh_array (junk_put_aside j) (width / 8)) 0 0)
              st depth (width / 8)
              (Z.of_nat (ndigits 15 (to_ull (depth - 1)))))
    as (k & Hrun & Hrest).
  - lia.
  - unfold UINT8_MAX. lia.
  - unfold ready. cbn [buffer put_aside_buffer words_read remainder_len].
    repeat split; try apply bytes_fresh_array; apply len_fresh_array;
      unfold INPUT_BUFFER_SIZE; lia.
  - exact Hdata.
  - lia.
  - rewrite Z2Nat.id by lia. exact Hcase.
  - rewrite Z2Nat.id in Hrun, Hrest by lia. rewrite Z.add_0_l in Hrun.
    exists k, (Z.of_nat (ndigits 15 (to_ull (depth - 1)))).
    split; [apply num_len_of_depth|]. split; [|exact Hrest].
    unfold generate_mif_content. rewrite Hws.
    rewrite signed64_in_range by (unfold LLONG_MIN, LLONG_MAX in *; lia).
    cbn [bind]. rewrite num_len_of_depth. cbn [bind]. exact Hrun.
Qed.

(** X1. For an input that is read without short reads or errors and
    holds at least [depth] whole words, [generate_mif_content] returns
    [depth], reports nothing, and appends to the output exactly the
    records of the first [depth] words of the input, in input order,
    numbered from 0. *)
Theorem complete_input_is_converted :
  forall j data st t err depth width,
    8 <= width <= UINT8_MAX -> Forall is_byte data ->
    0 <= depth <= LLONG_MAX -> depth * (width / 8) <= len data ->
    exists k addr_repr_width,
      num_len (to_ull (depth - 1)) 16 = Done addr_repr_width
      /\ generate_mif_content j
           (mkWorld (plain_stream data st) (mkSink t None) err) depth width
         = Done (depth,
                 mkWorld (plain_stream (skipn k data) st)
                   (mkSink (t ++ records addr_repr_width (width / 8) data 0 0
                                    (Z.to_nat depth))
                           None)
                   err).
Proof.
  intros j data st t err depth width Hw Hdata Hd Hfit.
  destruct (word_size_of_width width Hw) as [_ Hrange].
  assert (Hq : depth <= len data / (width / 8))
    by (apply Z.div_le_lower_bound; lia).
  destruct (generate_mif_content_plain j data st t err depth width Hw Hdata Hd
              (or_introl Hq)) as (k & arw & Hnum & Hrun & _).
  exists k, arw. split; [exact Hnum|].
  rewrite Hrun, Z.min_l by lia.
  destruct (Z.leb_spec depth (len data / (width / 8))); [reflexivity|lia].
Qed.

Lemma complete_input_is_converted_witness :
  exists k addr_repr_width,
    num_len (to_ull (2 - 1)) 16 = Done addr_repr_width
    /\ generate_mif_content zero_junk
         (mkWorld (plain_stream [1; 2; 3; 4; 5] StatOther) open_sink [])
         2 16
       = Done (2,
               mkWorld (plain_stream (skipn k [1; 2; 3; 4; 5]) StatOther)
                 (mkSink (EmptyString ++ records addr_repr_width (16 / 8) [1; 2; 3; 4; 5]
                                   0 0 (Z.to_nat 2))
                         None)
                 []).
Proof.
  apply (complete_input_is_converted zero_junk [1; 2; 3; 4; 5] StatOther EmptyString []
                                     2 16).
  - unfold UINT8_MAX. lia.
  - repeat constructor; unfold is_byte; lia.
  - unfold LLONG_MAX. lia.
  - vm_compute. discriminate.
Defined.

(** X2. For an input of exactly [n] whole words that is read
    without short reads or errors, and a depth above [n],
    [generate_mif_content] writes the [n] records, uses up the input,
    reports the unexpected end of file and returns [n]. *)
Theorem aligned_input_stops_at_its_end :
  forall j data st t err depth width n,
    8 <= width <= UINT8_MAX -> Forall is_byte data ->
    len data = n * (width / 8) -> n < depth <= LLONG_MAX ->
    exists addr_repr_width,
      num_len (to_ull (depth - 1)) 16 = Done addr_repr_width
      /\ generate_mif_content j
           (mkWorld (plain_stream data st) (mkSink t None) err) depth width
         = Done (n,
                 mkWorld (plain_stream [] st)
                   (mkSink (t ++ records addr_repr_width (width / 8) data 0 0
                                    (Z.to_nat n))
                           None)
                   (err ++ [WarnEOF])).
Proof.
  intros j data st t err depth width n Hw Hdata Hlen Hd.
  destruct (word_size_of_width width Hw) as [_ Hrange].
  pose proof (len_nonneg data) as HL.
  assert (Hn : 0 <= n) by nia.
  assert (Hq : len data / (width / 8) = n)
    by (rewrite Hlen; apply Z.div_mul; lia).
  assert (Hm : len data mod (width / 8) = 0)
    by (rewrite Hlen; apply Z.mod_mul; lia).
  destruct (generate_mif_content_plain j data st t err depth width Hw Hdata
              ltac:(lia) (or_intror Hm)) as (k & arw & Hnum & Hrun & Hrest).
  exists arw. split; [exact Hnum|].
  rewrite Hrun, Hq, Z.min_r by lia. rewrite Hrest by lia.
  destruct (Z.leb_spec depth n); [lia | reflexivity].
Qed.

Lemma aligned_input_stops_at_its_end_witness :
  exists addr_repr_width,
    num_len (to_ull (300 - 1)) 16 = Done addr_repr_width
    /\ generate_mif_content zero_junk
         (mkWorld (plain_stream [1; 2; 3; 4] StatOther) open_sink [])
         300 16
       = Done (2,
               mkWorld (plain_stream [] StatOther)
                 (mkSink (EmptyString ++ records addr_repr_width (16 / 8) [1; 2; 3; 4]
                                   0 0 (Z.to_nat 2))
                         None)
                 ([] ++ [WarnEOF])).
Proof.
  apply (aligned_input_stops_at_its_end zero_junk [1; 2; 3; 4] StatOther EmptyString []
                                        300 16 2).
  - unfold UINT8_MAX. lia.
  - repeat constructor; unfold is_byte; lia.
  - reflexivity.
  - unfold LLONG_MAX. lia.
Defined.

Lemma validate_explicit (w : world) (depth width : Z) :
  0 <= depth -> 0 <= width -> depth * width <= LLONG_MAX ->
  (stat (w_in w) = StatOther
   \/ exists size, stat (w_in w) = StatRegular size
                   /\ Z.quot (depth * width) 8 <= size) ->
  generate_mif_validate w depth width = Done (w, Some depth).
Proof.
  intros Hd Hw Hmax Hstat. unfold generate_mif_validate.
  rewrite signed64_in_range by (unfold LLONG_MIN, LLONG_MAX in *; nia).
  cbn [bind]. unfold file_size.
  destruct (Z.ltb_spec depth 0); [lia|].
  destruct Hstat as [->|(size & -> & Hsize)].
  - reflexivity.
  - assert (0 <= Z.quot (depth * width) 8) by (apply Z.quot_pos; nia).
    destruct (Z.eqb_spec size (-1)); [lia|].
    destruct (Z.eqb_spec size (-2)); [lia|]. cbn [andb negb].
    destruct (Z.ltb_spec size (Z.quot (depth * width) 8)); [lia|reflexivity].
Qed.

Lemma header_written (t : string) (depth width : Z) :
  generate_mif_header (mkSink t None) depth width
  = (true, mkSink (t ++ header_text depth width) None).
Proof. reflexivity. Qed.




(** X4. With no depth given, a regular file of [n] whole words is
    converted with the size of the file in bytes as depth: the header
    carries that size, [n] records and ["END;"] follow, [n] is returned,
    and the unexpected end of file is reported exactly when [n] is less
    than the size in bytes. *)
Theorem inferred_depth_run :
  forall j data t err depth width n,
    8 <= width <= UINT8_MAX -> Forall is_byte data ->
    depth < 0 -> LLONG_MIN <= depth * width ->
    len data = n * (width / 8) -> len data <= LLONG_MAX ->
    exists rest addr_repr_width,
      num_len (to_ull (len data - 1)) 16 = Done addr_repr_width
      /\ generate_mif j
           (mkWorld (plain_stream data (StatRegular (len data)))
                    (mkSink t None) err)
           depth width
         = Done (n,
                 mkWorld (plain_stream rest (StatRegular (len data)))
                   (mkSink (t ++ header_text (len data) width
                              ++ records addr_repr_width (width / 8) data 0 0
                                         (Z.to_nat n)
                              ++ "END;" ++ nl)
                           None)
                   (if len data <=? n then err else err ++ [WarnEOF])).
Proof.
  intros j data t err depth width n Hw Hdata Hd Hmin Hlen Hmax.
  destruct (word_size_of_width width Hw) as [_ Hrange].
  pose proof (len_nonneg data) as HL.
  assert (Hn : 0 <= n) by nia.
  assert (Hq : len data / (width / 8) = n)
    by (rewrite Hlen; apply Z.div_mul; lia).
  assert (Hm : len data mod (width / 8) = 0)
    by (rewrite Hlen; apply Z.mod_mul; lia).
  destruct (generate_mif_content_plain j data (StatRegular (len data))
              (t ++ header_text (len data) width) err (len data) width Hw Hdata
              ltac:(lia) (or_intror Hm)) as (k & arw & Hnum & Hrun & _).
  exists (skipn k data), arw. split; [exact Hnum|].
  unfold generate_mif, generate_mif_validate.
  rewrite signed64_in_range
    by (unfold LLONG_MIN, LLONG_MAX, UINT8_MAX in *; nia).
  cbn [bind]. unfold file_size. cbn [w_in stat plain_stream].
  destruct (Z.eqb_spec (len data) (-1)); [lia|].
  destruct (Z.eqb_spec (len data) (-2)); [lia|]. cbn [andb].
  destruct (Z.ltb_spec depth 0); [|lia].
  cbn [bind w_out]. rewrite header_written. cbn [negb].
  unfold with_out. cbn [w_in w_err].
  fold (plain_stream data (StatRegular (len data))).
  rewrite Hrun. cbn [bind]. rewrite Hq, Z.min_r by nia.
  destruct (Z.ltb_spec n 0); [lia|].
  cbn [w_out sys_dprintf quota text w_in w_err]. now rewrite !append_assoc.
Qed.

Lemma inferred_depth_run_witness :
  exists rest addr_repr_width,
    num_len (to_ull (len [1; 2; 3; 4] - 1)) 16 = Done addr_repr_width
    /\ generate_mif zero_junk
         (mkWorld (plain_stream [1; 2; 3; 4] (StatRegular (len [1; 2; 3; 4])))
                  open_sink [])
         (-1) 16
       = Done (2,
               mkWorld (plain_stream rest (StatRegular (len [1; 2; 3; 4])))
                 (mkSink (EmptyString ++ header_text (len [1; 2; 3; 4]) 16
                            ++ records addr_repr_width (16 / 8) [1; 2; 3; 4] 0 0
                                       (Z.to_nat 2)
                            ++ "END;" ++ nl)
                         None)
                 (if len [1; 2; 3; 4] <=? 2 then [] else [] ++ [WarnEOF])).
Proof.
  apply (inferred_depth_run zero_junk [1; 2; 3; 4] EmptyString [] (-1) 16 2).
  - unfold UINT8_MAX. lia.
  - repeat constructor; unfold is_byte; lia.
  - lia.
  - unfold LLONG_MIN. lia.
  - reflexivity.
  - vm_compute. discriminate.
Defined.

Lemma safe_close_open (fd : Z) (k : kernel) :
  0 <= fd ->
  safe_close (Some fd) k
  = (negb (closed_before k fd) && negb (close_error k fd), Some (-1),
     mkKernel (close_error k) (close_calls k ++ [fd])).
Proof.
  intros Hfd. unfold safe_close, sys_close.
  destruct (Z.eqb_spec fd (-1)); [lia|].
  destruct (Z.leb_spec 0 fd); [reflexivity|lia].
Qed.



(** X6. The end of [main] reports [GENRATOR_FAILURE] exactly when
    the count returned by [generate_mif] is negative and differs from
    [depth]: with no depth given, [depth] is -1 and a failed generation,
    which returns -1, is not reported. *)
Theorem generator_failure_status :
  forall c in_fd out_fd words_written w k,
    exit_status (main_finish c in_fd out_fd words_written w k) = GENRATOR_FAILURE
    <-> (words_written < 0 /\ words_written <> cfg_depth c).
Proof.
  intros c in_fd out_fd ww w k.
  destruct (Z.eq_dec ww (cfg_depth c)) as [He|Hne].
  - split; [|intros [_ H]; contradiction].
    intros H. exfalso. revert H. unfold main_finish.
    rewrite He, Z.eqb_refl. cbn [negb].
    destruct (safe_close (Some in_fd) k) as [[r3 fd3] k3].
    destruct (negb r3); destruct (cfg_out_filename c);
      try destruct (safe_close (Some out_fd) k3) as [[r4 fd4] k4];
      try destruct (negb r4); cbn; unfold GENRATOR_FAILURE, FILE_CLOSE_FAILURE;
      lia.
  - destruct (Z.lt_ge_cases ww 0) as [Hneg|Hpos].
    + split; [intros _; now split|]. intros _.
      unfold main_finish.
      destruct (Z.eqb_spec ww (cfg_depth c)); [contradiction|]. cbn [negb].
      destruct (safe_close (Some in_fd) k) as [[r1 fd1] k1].
      destruct (safe_close (Some out_fd) k1) as [[r2 fd2] k2].
      destruct (Z.ltb_spec ww 0); [reflexivity|lia].
    + split; [|intros [H _]; lia].
      rewrite main_finish_early_stop by assumption. cbn.
      unfold GENRATOR_FAILURE. lia.
Qed.

Lemma closed_before_after (k : kernel) (fd fd' : Z) :
  closed_before (mkKernel (close_error k) (close_calls k ++ [fd'])) fd
  = closed_before k fd || (fd =? fd').
Proof.
  unfold closed_before. cbn [close_calls]. rewrite existsb_app. cbn [existsb].
  now rewrite orb_false_r.
Qed.

(** X7. After a generation that returned [depth], the status is
    [FILE_CLOSE_FAILURE] exactly when closing the input fails or closing
    a named output fails, and 0 otherwise; the input is closed first, the
    output only when it has a name. *)
Theorem close_failure_status :
  forall c in_fd out_fd w k,
    0 <= in_fd -> 0 <= out_fd -> in_fd <> out_fd ->
    closed_before k in_fd = false -> closed_before k out_fd = false ->
    exit_status (main_finish c in_fd out_fd (cfg_depth c) w k)
    = (if close_error k in_fd
          || match cfg_out_filename c with
             | Some _ => close_error k out_fd
             | None => false
             end
       then FILE_CLOSE_FAILURE else EXIT_SUCCESS)
    /\ close_calls (f_kernel (main_finish c in_fd out_fd (cfg_depth c) w k))
       = close_calls k ++ in_fd :: match cfg_out_filename c with
                                   | Some _ => [out_fd]
                                   | None => []
                                   end.
Proof.
  intros c in_fd out_fd w k Hin Hout Hne Hfin Hfout.
  unfold main_finish. rewrite Z.eqb_refl. cbn [negb].
  rewrite safe_close_open by lia. rewrite Hfin. cbn [negb andb].
  destruct (cfg_out_filename c) as [name|].
  - rewrite safe_close_open by lia. rewrite closed_before_after, Hfout.
    destruct (Z.eqb_spec out_fd in_fd); [congruence|]. cbn [orb negb andb close_error].
    destruct (close_error k in_fd), (close_error k out_fd); cbn;
      now rewrite <- app_assoc.
  - destruct (close_error k in_fd); cbn; split; reflexivity.
Qed.

Lemma close_failure_status_witness :
  exit_status (main_finish (mkConfig 4 8 "-" None) 0 1 (cfg_depth (mkConfig 4 8 "-" None))
                           drained_world quiet_kernel)
  = (if close_error quiet_kernel 0
        || match cfg_out_filename (mkConfig 4 8 "-" None) with
           | Some _ => close_error quiet_kernel 1
           | None => false
           end
     then FILE_CLOSE_FAILURE else EXIT_SUCCESS)
  /\ close_calls (f_kernel (main_finish (mkConfig 4 8 "-" None) 0 1
                              (cfg_depth (mkConfig 4 8 "-" None))
                              drained_world quiet_kernel))
     = close_calls quiet_kernel ++ 0 :: match cfg_out_filename (mkConfig 4 8 "-" None) with
                                        | Some _ => [1]
                                        | None => []
                                        end.
Proof.
  apply (close_failure_status (mkConfig 4 8 "-" None) 0 1 drained_world quiet_kernel);
    first [lia | reflexivity].
Defined.

(** X8. A run of [main] on a standard input that is not a regular
    file, with no depth given, writes nothing, reads nothing, reports that
    the depth has to be given, and ends with status 0. *)
Theorem missing_depth_on_a_pipe_exits_with_success :
  forall m opts c,
    parse_options opts default_config = inr c ->
    cfg_depth c = -1 -> cfg_in_filename c = "-"%string ->
    cfg_out_filename c = None -> 0 <= cfg_width c <= UINT8_MAX ->
    stat (m_stdin m) = StatOther ->
    closed_before (m_kernel m) STDIN_FILENO = false ->
    close_error (m_kernel m) STDIN_FILENO = false ->
    main m opts []
    = Done (mkFinished EXIT_SUCCESS
              (mkWorld (m_stdin m) (m_stdout m) [WarnDepthRequired])
              (mkKernel (close_error (m_kernel m))
                        (close_calls (m_kernel m) ++ [STDIN_FILENO]))).
Proof.
  intros m opts c Hparse Hdepth Hin Hout Hwidth Hstat Hfresh Hclose.
  unfold main. rewrite Hparse. cbn [parse_operands].
  rewrite Hin, Hout. change (negb ("-" =? "-")%string) with false. cbv iota.
  unfold generate_mif, generate_mif_validate. rewrite Hdepth.
  unfold UINT8_MAX in Hwidth.
  rewrite signed64_in_range by (unfold LLONG_MIN, LLONG_MAX; lia).
  cbn [bind]. unfold file_size. cbn [w_in]. rewrite Hstat.
  change (-2 =? -1) with false. change ((-2 =? -2) && (-1 <? 0)) with true.
  cbv iota. cbn [bind].
  unfold main_finish. rewrite Hdepth, Hout. change (negb (-1 =? -1)) with false.
  cbv iota.
  rewrite safe_close_open by (unfold STDIN_FILENO; lia).
  rewrite Hfresh, Hclose. reflexivity.
Qed.

Lemma missing_depth_on_a_pipe_exits_with_success_witness :
  main (pipe_machine [1; 2; 3]) [OptWidth (number 16)] []
  = Done (mkFinished EXIT_SUCCESS
            (mkWorld (m_stdin (pipe_machine [1; 2; 3]))
                     (m_stdout (pipe_machine [1; 2; 3])) [WarnDepthRequired])
            (mkKernel (close_error (m_kernel (pipe_machine [1; 2; 3])))
                      (close_calls (m_kernel (pipe_machine [1; 2; 3]))
                       ++ [STDIN_FILENO]))).
Proof.
  apply (missing_depth_on_a_pipe_exits_with_success (pipe_machine [1; 2; 3])
           [OptWidth (number 16)] (mkConfig (-1) 16 "-" None));
    first [reflexivity | unfold UINT8_MAX; simpl; lia].
Defined.

Lemma sys_dprintf_text (out out' : sink) (s : string) :
  sys_dprintf out s = Some out' -> text out' = (text out ++ s)%string.
Proof.
  unfold sys_dprintf. destruct (quota out) as [[|q]|]; intros E; inversion E;
    reflexivity.
Qed.

Lemma emit_word_appends (buffer : list Z) (word_size word_idx : Z) (n : nat) :
  forall out ok out',
    emit_word n out buffer word_size word_idx = Done (ok, out') ->
    exists s, text out' = (text out ++ s)%string.
Proof.
  induction n as [|n IH]; intros out ok out' H; cbn [emit_word] in H.
  - inversion H. exists EmptyString. now rewrite append_nil_r.
  - open_bind H.
    destruct (sys_dprintf out _) as [out1|] eqn:E.
    + apply sys_dprintf_text in E. apply IH in H. destruct H as [s Hs].
      eexists. rewrite Hs, E, append_assoc. reflexivity.
    + inversion H. exists EmptyString. now rewrite append_nil_r.
Qed.

Lemma emit_record_effect (word_size addr_repr_width addr : Z) (w : world)
  (f : frame) (r : round) :
  emit_record word_size addr_repr_width addr w f = Done r ->
  match r with
  | Return v w' =>
    v = addr /\ w_in w' = w_in w
    /\ (exists s, text (w_out w') = (text (w_out w) ++ s)%string)
    /\ (w_err w' = w_err w ++ [WarnEOF] \/ w_err w' = w_err w ++ [WarnWrite])
  | Next w' f' =>
    w_in w' = w_in w
    /\ (exists s, text (w_out w') = (text (w_out w) ++ s)%string)
    /\ w_err w' = w_err w
  end.
Proof.
  unfold emit_record.
  destruct ((words_read f =? 0) && (remainder_len f =? 0)).
  { intros E. inversion E. cbn. repeat split; auto.
    exists EmptyString. now rewrite append_nil_r. }
  destruct (sys_dprintf (w_out w) _) as [out1|] eqn:E1.
  2:{ intros E. inversion E. cbn. repeat split; auto.
      exists EmptyString. now rewrite append_nil_r. }
  apply sys_dprintf_text in E1. intros H. open_bind H.
  destruct a as [ok out2]. apply emit_word_appends in Ha. destruct Ha as [s Hs].
  assert (Hpre : exists s', text out2 = (text (w_out w) ++ s')%string)
    by (eexists; rewrite Hs, E1, append_assoc; reflexivity).
  destruct ok; inversion H; cbn; repeat split; auto.
Qed.

Lemma read_aligned_consumes (fd : stream) (dest : list Z) (nwords word_size : Z)
  (put_aside : list Z) (remainder_len : Z) (r : ra_out) :
  read_aligned fd dest nwords word_size put_aside remainder_len = Done r ->
  exists bs, pending fd = bs ++ pending (ra_in r).
Proof.
  unfold read_aligned. intros H. open_bind H. destruct a as [dest1 off].
  destruct (sys_read fd _) as [[bs|] fd'] eqn:Hread.
  - repeat open_bind H. inversion H. cbn [ra_in].
    exists bs. now apply sys_read_splits in Hread.
  - inversion H. cbn [ra_in]. exists [].
    unfold sys_read in Hread.
    destruct (script fd) as [|[|n] rest]; inversion Hread. reflexivity.
Qed.

Lemma content_round_effect (word_size addr_repr_width addr : Z) (w : world)
  (f : frame) (r : round) :
  content_round word_size addr_repr_width addr w f = Done r ->
  match r with
  | Return v w' =>
    v = addr
    /\ (exists bs, pending (w_in w) = bs ++ pending (w_in w'))
    /\ (exists s, text (w_out w') = (text (w_out w) ++ s)%string)
    /\ (exists d, w_err w' = w_err w ++ [d]
                  /\ (d = WarnRead \/ d = WarnEOF \/ d = WarnWrite))
  | Next w' f' =>
    (exists bs, pending (w_in w) = bs ++ pending (w_in w'))
    /\ (exists s, text (w_out w') = (text (w_out w) ++ s)%string)
    /\ w_err w' = w_err w
  end.
Proof.
  unfold content_round. destruct (words_read f =? 0).
  - intros H. open_bind H. apply read_aligned_consumes in Ha.
    destruct (ra_ret a <? 0).
    + inversion H. cbn. repeat split; auto.
      * exists EmptyString. now rewrite append_nil_r.
      * exists WarnRead. auto.
    + apply emit_record_effect in H. destruct r as [v w'|w' f'];
        cbn [w_in w_out w_err] in H.
      * destruct H as (Hv & Hin & Htext & Herr). rewrite Hin.
        repeat split; auto.
        destruct Herr as [He|He]; [exists WarnEOF | exists WarnWrite]; auto.
      * destruct H as (Hin & Htext & Herr). rewrite Hin. auto.
  - intros H. apply emit_record_effect in H. destruct r as [v w'|w' f'].
    + destruct H as (Hv & Hin & Htext & Herr). rewrite Hin.
      repeat split; auto; [now exists []|].
      destruct Herr as [He|He]; [exists WarnEOF | exists WarnWrite]; auto.
    + destruct H as (Hin & Htext & Herr). rewrite Hin.
      repeat split; auto. now exists [].
Qed.

Lemma content_loop_effect (todo : nat) :
  forall depth word_size addr_repr_width addr w f v w',
    content_loop todo depth word_size addr_repr_width addr w f = Done (v, w') ->
    (exists bs, pending (w_in w) = bs ++ pending (w_in w'))
    /\ (exists s, text (w_out w') = (text (w_out w) ++ s)%string)
    /\ ((v = depth /\ w_err w' = w_err w)
        \/ (addr <= v < addr + Z.of_nat todo
            /\ exists d, w_err w' = w_err w ++ [d]
                         /\ (d = WarnRead \/ d = WarnEOF \/ d = WarnWrite))).
Proof.
  induction todo as [|todo IH]; intros depth ws arw addr w f v w' H.
  - cbn in H. inversion H. repeat split; [now exists [] | | now left].
    exists EmptyString. now rewrite append_nil_r.
  - cbn [content_loop] in H. open_bind H.
    apply content_round_effect in Ha. destruct a as [v0 w0|w0 f0].
    + inversion H; subst v0 w0. destruct Ha as (Hv & Hin & Htext & Herr).
      repeat split; auto. right. split; [lia | exact Herr].
    + destruct Ha as ((bs & Hin) & (s & Htext) & Herr).
      apply IH in H. destruct H as ((bs' & Hin') & (s' & Htext') & Hcase).
      repeat split.
      * exists (bs ++ bs'). now rewrite Hin, Hin', app_assoc.
      * exists (s ++ s')%string. now rewrite Htext', Htext, append_assoc.
      * rewrite <- Herr.
        destruct Hcase as [Hc|[Hv Hd]]; [now left | right; split; [lia|exact Hd]].
Qed.

(** X10. When [generate_mif_content] returns, either the value
    is [depth] and nothing was reported, or the value is below [depth]
    (and not negative) and exactly one diagnostic was reported: a failed
    read, an unexpected end of file, or a failed write. *)
Theorem short_count_has_one_diagnostic :
  forall j w depth width v w',
    generate_mif_content j w depth width = Done (v, w') ->
    (v = depth /\ w_err w' = w_err w)
    \/ (0 <= v < depth
        /\ exists d, w_err w' = w_err w ++ [d]
                     /\ (d = WarnRead \/ d = WarnEOF \/ d = WarnWrite)).
Proof.
  intros j w depth width v w' H. unfold generate_mif_content in H.
  open_bind H. open_bind H. apply content_loop_effect in H.
  destruct H as (_ & _ & [Hc|[Hv Hd]]); [now left|].
  right. split; [lia | exact Hd].
Qed.

Lemma short_count_has_one_diagnostic_witness :
  (0 = 2
   /\ w_err (warn (mkWorld (mkStream [1; 2; 3; 4] [] StatOther) open_sink [])
                  WarnRead)
      = w_err failing_world)
  \/ (0 <= 0 < 2
      /\ exists d,
          w_err (warn (mkWorld (mkStream [1; 2; 3; 4] [] StatOther) open_sink [])
                      WarnRead)
          = w_err failing_world ++ [d]
          /\ (d = WarnRead \/ d = WarnEOF \/ d = WarnWrite)).
Proof.
  apply (short_count_has_one_diagnostic zero_junk failing_world 2 16 0).
  vm_compute. reflexivity.
Defined.

Lemma num_len_loop_base (base : Z) (f : nat) :
  forall n len,
    2 <= base -> 0 <= n < base ^ Z.of_nat f ->
    exists d,
      0 <= d <= Z.of_nat f
      /\ num_len_loop f n base len = Done ((len + d) mod 2 ^ 32)
      /\ n < base ^ d
      /\ (d = 0 \/ base ^ (d - 1) <= n).
Proof.
  induction f as [|f IH]; intros n len Hb Hn.
  - exists 0. cbn in Hn. assert (n = 0) by lia. subst n.
    cbn. rewrite Z.add_0_r. repeat split; auto; lia.
  - destruct (Z.eq_dec n 0) as [->|Hpos].
    + exists 0. cbn [num_len_loop]. change (0 <? 0) with false. cbv iota.
      rewrite Z.add_0_r. repeat split; auto; lia.
    + rewrite Nat2Z.inj_succ, Z.pow_succ_r in Hn by lia.
      assert (Hq : 0 <= n / base < base ^ Z.of_nat f).
      { split; [apply Z.div_pos; lia | apply Z.div_lt_upper_bound; lia]. }
      destruct (IH (n / base) (len + 1) Hb Hq) as (d & Hd & Hrun & Hup & Hlow).
      pose proof (Z.div_mod n base ltac:(lia)) as E.
      pose proof (Z.mod_pos_bound n base ltac:(lia)) as Hm.
      exists (d + 1). cbn [num_len_loop].
      destruct (Z.ltb_spec 0 n); [|lia].
      rewrite Hrun. rewrite Z.pow_add_r, Z.pow_1_r by lia.
      split; [lia|]. split; [do 2 f_equal; lia|]. split; [nia|].
      right. replace (d + 1 - 1) with d by lia.
      destruct Hlow as [->|Hlow].
      * cbn. lia.
      * destruct (Z.eq_dec d 0) as [->|Hd0]; [cbn; lia|].
        assert (Hp : base ^ d = base * base ^ (d - 1))
          by (rewrite <- Z.pow_succ_r by lia; f_equal; lia).
        rewrite Hp. nia.
Qed.

(** X11. For every base from 2 to 255 and every 64-bit [num],
    [num_len] returns the number of digits of [num] in that base: a value
    [w] from 1 to 64 with [num < base ^ w] and, unless [w] is 1,
    [base ^ (w - 1) <= num]. *)
Theorem num_len_counts_digits :
  forall num base,
    2 <= base <= UINT8_MAX -> 0 <= num < 2 ^ 64 ->
    exists w,
      num_len num base = Done w
      /\ 1 <= w <= 64
      /\ num < base ^ w
      /\ (w = 1 \/ base ^ (w - 1) <= num).
Proof.
  intros num base Hb Hnum. unfold UINT8_MAX in Hb.
  assert (Hpow : 2 ^ 64 <= base ^ 64) by (apply Z.pow_le_mono_l; lia).
  assert (Hq : 0 <= num / base < base ^ Z.of_nat 64).
  { split; [apply Z.div_pos; lia|].
    apply Z.div_lt_upper_bound; [lia|].
    change (Z.of_nat 64) with 64. nia. }
  destruct (num_len_loop_base base 64 (num / base) 1 ltac:(lia) Hq)
    as (d & Hd & Hrun & Hup & Hlow).
  pose proof (Z.div_mod num base ltac:(lia)) as E.
  pose proof (Z.mod_pos_bound num base ltac:(lia)) as Hm.
  assert (Hupper : num < base ^ (1 + d))
    by (rewrite Z.pow_add_r, Z.pow_1_r by lia; nia).
  assert (Hlower : 1 + d = 1 \/ base ^ (1 + d - 1) <= num).
  { destruct (Z.eq_dec d 0) as [->|Hd0]; [now left|right].
    destruct Hlow as [->|Hlow]; [lia|].
    replace (1 + d - 1) with (Z.succ (d - 1)) by lia.
    rewrite Z.pow_succ_r by lia. nia. }
  assert (Hd64 : 1 + d <= 64).
  { destruct Hlower as [H1|Hl]; [lia|].
    replace (1 + d - 1) with d in Hl by lia.
    assert (H2 : 2 ^ d <= base ^ d) by (apply Z.pow_le_mono_l; lia).
    assert (H3 : 2 ^ d < 2 ^ 64) by lia.
    apply Z.pow_lt_mono_r_iff in H3; lia. }
  exists (1 + d). unfold num_len.
  destruct (Z.eqb_spec base 0); [lia|].
  rewrite Hrun. rewrite Z.mod_small by lia. repeat split; auto; lia.
Qed.

Lemma num_len_counts_digits_witness :
  exists w,
    num_len 1000 10 = Done w
    /\ 1 <= w <= 64
    /\ 1000 < 10 ^ w
    /\ (w = 1 \/ 10 ^ (w - 1) <= 1000).
Proof.
  apply (num_len_counts_digits 1000 10).
  - unfold UINT8_MAX. lia.
  - split; [lia|]. now vm_compute.
Defined.

Lemma num_len_loop_base_one (fuel : nat) :
  forall num len, 0 < num -> num_len_loop fuel num 1 len = Fault OutOfFuel.
Proof.
  induction fuel as [|fuel IH]; intros num len Hnum; cbn [num_len_loop];
    destruct (Z.ltb_spec 0 num); try lia; [reflexivity|].
  rewrite Z.div_1_r. now apply IH.
Qed.

(** X12. For a positive [num], [num_len] with base 0 divides by
    zero, and with base 1 its loop never ends: no number of rounds is
    enough. *)
Theorem num_len_needs_base_two :
  forall num,
    0 < num ->
    num_len num 0 = Fault DivisionByZero
    /\ num_len num 1 = Fault OutOfFuel
    /\ forall fuel len, num_len_loop fuel (num / 1) 1 len = Fault OutOfFuel.
Proof.
  intros num Hnum. split; [reflexivity|]. split.
  - unfold num_len. cbn [Z.eqb]. rewrite Z.div_1_r.
    now apply num_len_loop_base_one.
  - intros fuel len. rewrite Z.div_1_r. now apply num_len_loop_base_one.
Qed.

Lemma num_len_needs_base_two_witness :
  num_len 5 0 = Fault DivisionByZero
  /\ num_len 5 1 = Fault OutOfFuel
  /\ forall fuel len, num_len_loop fuel (5 / 1) 1 len = Fault OutOfFuel.
Proof.
  apply (num_len_needs_base_two 5). lia.
Defined.

(** A fill at the end of the input with a carry of [r] bytes pending. *)
Lemma read_aligned_carry_at_end (st : stat_info) (dest put_aside : list Z)
  (word_size r : Z) :
  1 <= word_size <= UINT8_MAX -> 0 < r < word_size ->
  len dest = INPUT_BUFFER_SIZE * word_size -> len put_aside = word_size ->
  read_aligned (plain_stream [] st) dest INPUT_BUFFER_SIZE word_size put_aside r
  = Fault OutOfBounds.
Proof.
  unfold UINT8_MAX, INPUT_BUFFER_SIZE. intros Hw Hr Hdest Hpa.
  assert (H64 : 2 ^ 63 - 1 < 2 ^ 64) by now vm_compute.
  unfold read_aligned.
  destruct (Z.ltb_spec 0 r); [|lia].
  unfold memcpy at 1. rewrite load_firstn by lia. cbn [bind].
  assert (Hk : len (firstn (Z.to_nat r) put_aside) = r)
    by (unfold len in *; rewrite length_firstn; lia).
  rewrite store_splice by lia. cbn [bind].
  unfold sys_read. cbn [script plain_stream pending stat].
  rewrite firstn_nil. cbn [store bind len List.length Z.of_nat].
  rewrite Z.add_0_l.
  rewrite signed64_in_range by (unfold LLONG_MIN, LLONG_MAX; lia). cbn [bind].
  unfold c_div, c_mod. destruct (Z.eqb_spec word_size 0); [lia|]. cbn [bind].
  rewrite Z.rem_small by lia.
  unfold to_byte. rewrite (Z.mod_small r 256) by lia.
  unfold memcpy. rewrite load_firstn by lia. cbn [bind].
  assert (Hnb : to_size_t (128 * word_size) = 128 * word_size)
    by (unfold to_size_t; apply Z.mod_small; lia).
  rewrite Hnb.
  assert (Hd1 : len (splice dest 0 (firstn (Z.to_nat r) put_aside)) = len dest)
    by (apply len_splice; lia).
  unfold store. destruct (firstn (Z.to_nat r) put_aside) as [|b bs] eqn:E.
  - cbn in Hk. lia.
  - rewrite Hk, Hd1.
    destruct (Z.leb_spec (r + 128 * word_size - r + r) (len dest)); [lia|].
    now rewrite andb_false_r.
Qed.

(** X13. For an input that fits in one buffer, is read in one
    call and ends in a partial word after at least one whole word, a
    depth above the number of whole words makes the fill after the last
    whole word copy behind the end of the buffer. *)
Theorem partial_last_word_overruns_the_buffer :
  forall j data st t err depth width n r,
    8 <= width <= UINT8_MAX -> Forall is_byte data ->
    1 <= n -> 0 < r < width / 8 ->
    len data = n * (width / 8) + r ->
    len data < INPUT_BUFFER_SIZE * (width / 8) ->
    n < depth <= LLONG_MAX ->
    generate_mif_content j
      (mkWorld (plain_stream data st) (mkSink t None) err) depth width
    = Fault OutOfBounds.
Proof.
  intros j data st t err depth width n r Hw Hdata Hn Hr Hlen Hshort Hd.
  destruct (word_size_of_width width Hw) as [Hws Hrange].
  unfold INPUT_BUFFER_SIZE in Hshort.
  set (ws := width / 8) in *.
  unfold generate_mif_content. fold ws. rewrite Hws.
  rewrite signed64_in_range by (unfold LLONG_MIN, LLONG_MAX in *; lia).
  cbn [bind]. rewrite num_len_of_depth. cbn [bind].
  set (arw := Z.of_nat (ndigits 15 (to_ull (depth - 1)))).
  set (f0 := mkFrame (fresh_array (junk_buffer j) (INPUT_BUFFER_SIZE * ws)) 0
                     (fresh_array (junk_put_aside j) ws) 0 0).
  assert (Hblen : len (buffer f0) = 128 * ws)
    by (apply len_fresh_array; lia).
  assert (Hplen : len (put_aside_buffer f0) = ws)
    by (apply len_fresh_array; lia).
  assert (Hall : firstn (Z.to_nat (128 * ws)) data = data)
    by (apply firstn_all2; unfold len in *; lia).
  assert (Hread : sys_read (plain_stream data st) (128 * ws)
                  = (Some data, plain_stream (skipn (Z.to_nat (128 * ws)) data) st))
    by (rewrite plain_read, Hall; reflexivity).
  assert (Hfill := read_aligned_fresh_fill (plain_stream data st) _ (buffer f0)
                     128 ws (put_aside_buffer f0) data
                     ltac:(unfold UINT8_MAX; lia) ltac:(lia)
                     ltac:(unfold SSIZE_MAX; lia) Hblen Hplen Hread).
  destruct (fresh_fill_buffer (buffer f0) 128 ws (put_aside_buffer f0) data
              ltac:(lia) Hblen Hplen ltac:(lia)) as (Hdlen & _ & Hdbytes).
  specialize (Hdbytes (bytes_fresh_array _ _) (bytes_fresh_array _ _) Hdata).
  assert (Hq : len data / ws = n)
    by (rewrite Hlen; rewrite Z.div_add_l by lia; rewrite Z.div_small by lia; lia).
  assert (Hm : len data mod ws = r)
    by (rewrite Hlen, Z.add_comm, Z.mod_add by lia; apply Z.mod_small; lia).
  rewrite Hq, Hm in Hfill. rewrite Hm in Hdlen, Hdbytes.
  set (dest' := splice (splice (buffer f0) 0 data) (128 * ws - r)
                       (firstn (Z.to_nat r) (put_aside_buffer f0))) in *.
  destruct (Z.to_nat depth) as [|todo] eqn:Etodo; [lia|].
  rewrite (content_loop_refilled todo depth ws arw 0
             (mkWorld (plain_stream data st) (mkSink t None) err) f0
             (mkRa n dest' r (plain_stream (skipn (Z.to_nat (128 * ws)) data) st)))
    by (first [reflexivity | exact Hfill | cbn [ra_ret]; lia]).
  cbn [ra_ret ra_rem ra_in ra_dest w_out w_err].
  assert (Hsplit : content_loop (S todo)
                   = content_loop (Z.to_nat n + S (todo - Z.to_nat n)))
    by (f_equal; lia).
  rewrite Hsplit. clear Hsplit.
  rewrite drain_buffer;
    cbn [buffer words_read word_idx w_out quota text put_aside_buffer
         remainder_len with_out w_in w_err];
    try assumption; try reflexivity;
    try (unfold INPUT_BUFFER_SIZE; first [lia | nia]).
  cbn [content_loop]. unfold content_round.
  cbn [words_read]. rewrite Z2Nat.id by lia. rewrite Z.sub_diag.
  change (0 =? 0) with true. cbv iota.
  unfold with_out.
  cbn [w_in buffer put_aside_buffer remainder_len].
  rewrite skipn_past by lia.
  rewrite read_aligned_carry_at_end; first [reflexivity | assumption | idtac].
  - unfold UINT8_MAX. lia.
  - unfold INPUT_BUFFER_SIZE. lia.
Qed.

Lemma partial_last_word_overruns_the_buffer_witness :
  generate_mif_content zero_junk
    (mkWorld (plain_stream [1; 2; 3] StatOther) (mkSink EmptyString None) [])
    2 16
  = Fault OutOfBounds.
Proof.
  apply (partial_last_word_overruns_the_buffer zero_junk [1; 2; 3] StatOther
           EmptyString [] 2 16 1 1).
  - unfold UINT8_MAX. lia.
  - repeat constructor; unfold is_byte; lia.
  - lia.
  - vm_compute. split; reflexivity.
  - reflexivity.
  - vm_compute. reflexivity.
  - unfold LLONG_MAX. lia.
Defined.

(** X14. When [fstat] fails, or when the output takes no write
    at all, [generate_mif] returns -1, reads no input and writes no
    output. *)
Theorem generate_mif_fails_without_io :
  forall j w depth width,
    LLONG_MIN <= depth * width <= LLONG_MAX ->
    (stat (w_in w) = StatFails \/ quota (w_out w) = Some 0%nat) ->
    exists w',
      generate_mif j w depth width = Done (-1, w')
      /\ w_in w' = w_in w /\ w_out w' = w_out w.
Proof.
  intros j w depth width Hrange Hcase.
  unfold generate_mif, generate_mif_validate.
  rewrite signed64_in_range by exact Hrange. cbn [bind].
  assert (Hhead : forall w1 d,
             w_out w1 = w_out w -> quota (w_out w) = Some 0%nat ->
             generate_mif_header (w_out w1) d width = (false, w_out w1)).
  { intros w1 d E Hq. unfold generate_mif_header, sys_dprintf.
    now rewrite E, Hq. }
  destruct Hcase as [Hstat|Hq].
  - unfold file_size. rewrite Hstat. change (-1 =? -1) with true. cbv iota.
    eexists. split; [reflexivity|]. split; reflexivity.
  - destruct (file_size (w_in w) =? -1);
      [eexists; split; [reflexivity|]; split; reflexivity|].
    destruct ((file_size (w_in w) =? -2) && (depth <? 0));
      [eexists; split; [reflexivity|]; split; reflexivity|].
    destruct (depth <? 0).
    + cbn [bind]. rewrite (Hhead w _ eq_refl Hq). cbn [negb].
      eexists. split; [reflexivity|]. split; reflexivity.
    + destruct (negb (file_size (w_in w) =? -2) && _); cbn [bind].
      * rewrite (Hhead (warn w _) _ eq_refl Hq). cbn [negb].
        eexists. split; [reflexivity|]. split; reflexivity.
      * rewrite (Hhead w _ eq_refl Hq). cbn [negb].
        eexists. split; [reflexivity|]. split; reflexivity.
Qed.

Lemma generate_mif_fails_without_io_witness :
  exists w',
    generate_mif zero_junk
      (mkWorld (plain_stream [1; 2] StatFails) open_sink []) 1 8
    = Done (-1, w')
    /\ w_in w' = w_in (mkWorld (plain_stream [1; 2] StatFails) open_sink [])
    /\ w_out w' = w_out (mkWorld (plain_stream [1; 2] StatFails) open_sink []).
Proof.
  apply (generate_mif_fails_without_io zero_junk
           (mkWorld (plain_stream [1; 2] StatFails) open_sink []) 1 8).
  - unfold LLONG_MIN, LLONG_MAX. lia.
  - left. reflexivity.
Defined.

Lemma zero_depth_content (j : junk) (w : world) (width : Z) :
  generate_mif_content j w 0 width = Done (0, w).
Proof.
  unfold generate_mif_content.
  rewrite signed64_in_range by (unfold LLONG_MIN, LLONG_MAX; lia).
  cbn [bind]. rewrite num_len_of_depth. reflexivity.
Qed.

(** X15. When the depth in use is 0 (given as 0, or not given for
    an empty regular file), [generate_mif] writes the header with depth 0
    and ["END;"], reads nothing and returns 0, for every width, also one
    below 8. *)
Theorem zero_depth_writes_an_empty_file :
  forall j w depth width,
    quota (w_out w) = None ->
    (depth = 0
     /\ (stat (w_in w) = StatOther
         \/ exists size, 0 <= size /\ stat (w_in w) = StatRegular size))
    \/ (depth < 0 /\ LLONG_MIN <= depth * width <= LLONG_MAX
        /\ stat (w_in w) = StatRegular 0) ->
    generate_mif j w depth width
    = Done (0, with_out w (mkSink (text (w_out w) ++ header_text 0 width
                                     ++ "END;" ++ nl) None)).
Proof.
  intros j w depth width Hq Hcase.
  assert (Htail : forall w1,
             w1 = w ->
             (let '(ok, out1) := generate_mif_header (w_out w1) 0 width in
              if negb ok then Done (-1, w1)
              else
                r <- generate_mif_content j (with_out w1 out1) 0 width ;;
                let '(word_count, w2) := r in
                if word_count <? 0 then Done (-1, w2)
                else
                  match sys_dprintf (w_out w2) ("END;" ++ nl)%string with
                  | None => Done (-1, warn w2 WarnEnd)
                  | Some out3 => Done (word_count, with_out w2 out3)
                  end)
             = Done (0, with_out w (mkSink (text (w_out w) ++ header_text 0 width
                                              ++ "END;" ++ nl) None))).
  { intros w1 ->. unfold generate_mif_header, sys_dprintf. rewrite Hq.
    cbn [negb]. rewrite zero_depth_content. cbn [bind].
    change (0 <? 0) with false. cbv iota.
    unfold with_out. cbn [w_out quota text w_in w_err].
    now rewrite append_assoc. }
  unfold generate_mif, generate_mif_validate.
  destruct Hcase as [[-> Hstat]|(Hneg & Hrange & Hstat)].
  - rewrite Z.mul_0_l.
    rewrite signed64_in_range by (unfold LLONG_MIN, LLONG_MAX; lia).
    cbn [bind]. change (0 <? 0) with false. rewrite andb_false_r.
    unfold file_size.
    destruct Hstat as [->|(size & Hsize & ->)].
    + cbn. apply Htail. reflexivity.
    + destruct (Z.eqb_spec size (-1)); [lia|].
      destruct (Z.eqb_spec size (-2)); [lia|]. cbn [negb andb].
      change (Z.quot 0 8) with 0.
      destruct (Z.ltb_spec size 0); [lia|]. apply Htail. reflexivity.
  - rewrite signed64_in_range by exact Hrange. cbn [bind].
    unfold file_size. rewrite Hstat.
    change (0 =? -1) with false. change (0 =? -2) with false. cbn [andb].
    destruct (Z.ltb_spec depth 0); [|lia]. apply Htail. reflexivity.
Qed.

Lemma zero_depth_writes_an_empty_file_witness :
  generate_mif zero_junk
    (mkWorld (plain_stream [1; 2] StatOther) open_sink []) 0 4
  = Done (0, with_out (mkWorld (plain_stream [1; 2] StatOther) open_sink [])
               (mkSink (text (w_out (mkWorld (plain_stream [1; 2] StatOther)
                                             open_sink []))
                        ++ header_text 0 4 ++ "END;" ++ nl) None)).
Proof.
  apply (zero_depth_writes_an_empty_file zero_junk
           (mkWorld (plain_stream [1; 2] StatOther) open_sink []) 0 4).
  - reflexivity.
  - left. split; [reflexivity|]. left. reflexivity.
Defined.

Lemma validate_resolved (w w1 : world) (depth width d : Z) :
  generate_mif_validate w depth width = Done (w1, Some d) ->
  d = (if depth <? 0 then file_size (w_in w) else depth).
Proof.
  unfold generate_mif_validate. intros H. open_bind H.
  destruct (file_size (w_in w) =? -1); [inversion H|].
  destruct ((file_size (w_in w) =? -2) && (depth <? 0)); [inversion H|].
  destruct (depth <? 0); [now inversion H|].
  destruct (negb (file_size (w_in w) =? -2) && _); now inversion H.
Qed.

(** X16. [generate_mif] returns -1 or a count from 0 to the depth
    in use: the depth given or, with none given, the size of the file. *)
Theorem generate_mif_result_range :
  forall j w depth width v w',
    generate_mif j w depth width = Done (v, w') ->
    v = -1
    \/ 0 <= v <= (if depth <? 0 then file_size (w_in w) else depth).
Proof.
  intros j w depth width v w' H. unfold generate_mif in H.
  open_bind H. destruct a as [w1 [d|]]; [|inversion H; now left].
  apply validate_resolved in Ha. rewrite <- Ha.
  destruct (generate_mif_header (w_out w1) d width) as [ok out1].
  destruct ok; cbn [negb] in H; [|inversion H; now left].
  open_bind H. destruct a as [wc w2].
  destruct (Z.ltb_spec wc 0); [inversion H; now left|].
  assert (Hwc : wc <= d).
  { unfold generate_mif_content in Ha0. open_bind Ha0. open_bind Ha0.
    destruct (Z.le_gt_cases 0 d).
    - apply content_loop_range in Ha0; lia.
    - replace (Z.to_nat d) with 0%nat in Ha0 by lia. cbn in Ha0.
      inversion Ha0. lia. }
  destruct (sys_dprintf (w_out w2) _); inversion H; subst; [right; lia|now left].
Qed.

Lemma generate_mif_result_range_witness :
  5 = -1
  \/ 0 <= 5 <= (if -1 <? 0 then file_size (w_in ten_byte_file) else -1).
Proof.
  apply (generate_mif_result_range zero_junk ten_byte_file (-1) 16 5
           (mkWorld (plain_stream [] (StatRegular 10))
                    (mkSink (header_text 10 16
                             ++ "0 : 0201;" ++ nl ++ "1 : 0403;" ++ nl
                             ++ "2 : 0605;" ++ nl ++ "3 : 0807;" ++ nl
                             ++ "4 : 0a09;" ++ nl ++ "END;" ++ nl) None)
                    [WarnEOF])).
  vm_compute. reflexivity.
Defined.

Lemma str_to_byte_range (str : strtol_result) (v : Z) :
  str_to_byte str = inr v -> 0 <= v <= UINT8_MAX /\ v = st_num str.
Proof.
  unfold str_to_byte, UINT8_MAX.
  destruct (negb (st_all str)); [discriminate|].
  destruct (Z.ltb_spec (st_num str) 0); [discriminate|].
  destruct (Z.ltb_spec 255 (st_num str)); [discriminate|]. cbn [orb].
  intros E. inversion E. unfold to_byte. rewrite Z.mod_small by lia. lia.
Qed.

(** X17. The option loop keeps the width within [0, 255] and never
    changes the name of the input. *)
Theorem parsed_width_is_a_byte :
  forall opts c c',
    parse_options opts c = inr c' ->
    0 <= cfg_width c <= UINT8_MAX ->
    0 <= cfg_width c' <= UINT8_MAX
    /\ cfg_in_filename c' = cfg_in_filename c.
Proof.
  induction opts as [|o opts IH]; intros c c' H Hc; cbn [parse_options] in H.
  - inversion H; subst. now split.
  - destruct o as [a|a|name| |]; try discriminate.
    + destruct (str_to_byte a) as [s|width] eqn:E; [discriminate|].
      apply str_to_byte_range in E. apply IH in H; cbn in *; [exact H|lia].
    + destruct (str_to_ll a) as [s|depth]; [discriminate|].
      apply IH in H; cbn in *; [exact H|lia].
    + apply IH in H; cbn in *; [exact H|lia].
Qed.

Lemma parsed_width_is_a_byte_witness :
  0 <= cfg_width (mkConfig 4 16 "-" None) <= UINT8_MAX
  /\ cfg_in_filename (mkConfig 4 16 "-" None) = cfg_in_filename default_config.
Proof.
  apply (parsed_width_is_a_byte [OptWidth (number 16); OptDepth (number 4)]
                                default_config).
  - reflexivity.
  - unfold UINT8_MAX. simpl. lia.
Defined.


Lemma length_hex_run (l : list Z) :
  String.length (fold_right append EmptyString (map hex_pair l))
  = (2 * List.length l)%nat.
Proof.
  induction l as [|b l IH]; [reflexivity|].
  cbn [map fold_right List.length]. rewrite length_append, IH.
  unfold hex_pair. cbn [String.length]. lia.
Qed.

Lemma length_format_word_bytes (l : list Z) :
  String.length (format_word_bytes l) = (2 * List.length l)%nat.
Proof.
  unfold format_word_bytes. now rewrite length_hex_run, length_rev.
Qed.

Lemma length_word_at (data : list Z) (word_size idx : Z) :
  0 <= word_size -> 0 <= idx -> (idx + 1) * word_size <= len data ->
  List.length (word_at data word_size idx) = Z.to_nat word_size.
Proof.
  intros Hw Hi Hfit. unfold word_at.
  rewrite length_firstn, length_skipn. unfold len in Hfit. nia.
Qed.

Lemma length_address_field (v addr : Z) :
  0 <= addr <= v -> v < 2 ^ 64 ->
  String.length (fmt_0llx (Z.of_nat (ndigits 15 v)) addr) = ndigits 15 v.
Proof.
  intros Ha Hv. unfold fmt_0llx.
  assert (Hau : to_ull addr = addr) by (unfold to_ull; apply Z.mod_small; lia).
  rewrite Hau, length_pad0; rewrite ?Nat2Z.id; [reflexivity|].
  rewrite length_digits_16 by lia. apply ndigits_mono. lia.
Qed.

Lemma length_records (v word_size : Z) (data : list Z) (n : nat) :
  forall addr idx,
    0 <= word_size -> 0 <= addr -> 0 <= idx -> v < 2 ^ 64 ->
    (n <> 0%nat -> addr + Z.of_nat n - 1 <= v) ->
    (idx + Z.of_nat n) * word_size <= len data ->
    String.length (records (Z.of_nat (ndigits 15 v)) word_size data addr idx n)
    = (n * (ndigits 15 v + 2 * Z.to_nat word_size + 5))%nat.
Proof.
  induction n as [|n IH]; intros addr idx Hw Ha Hi Hv Hmax Hfit; [reflexivity|].
  cbn [records]. specialize (Hmax ltac:(lia)).
  rewrite !length_append, length_address_field, length_format_word_bytes by lia.
  rewrite length_word_at by (first [lia | nia]).
  rewrite IH by (first [lia | nia]).
  cbn [String.length nl]. lia.
Qed.

(** X19. For an input read without short reads that holds at
    least [depth] whole words, every record written by
    [generate_mif_content] has the same length: the output grows by
    [depth * (address width + 2 * word size + 5)] characters. *)
Theorem records_have_one_length :
  forall j data st t err depth width,
    8 <= width <= UINT8_MAX -> Forall is_byte data ->
    0 <= depth <= LLONG_MAX -> depth * (width / 8) <= len data ->
    exists addr_repr_width w',
      num_len (to_ull (depth - 1)) 16 = Done addr_repr_width
      /\ generate_mif_content j
           (mkWorld (plain_stream data st) (mkSink t None) err) depth width
         = Done (depth, w')
      /\ Z.of_nat (String.length (text (w_out w')))
         = Z.of_nat (String.length t)
           + depth * (addr_repr_width + 2 * (width / 8) + 5).
Proof.
  intros j data st t err depth width Hw Hdata Hd Hfit.
  destruct (word_size_of_width width Hw) as [_ Hrange].
  assert (Hq : depth <= len data / (width / 8))
    by (apply Z.div_le_lower_bound; lia).
  destruct (generate_mif_content_plain j data st t err depth width Hw Hdata Hd
              (or_introl Hq)) as (k & arw & Hnum & Hrun & _).
  rewrite Z.min_l in Hrun by lia.
  assert (Harw : arw = Z.of_nat (ndigits 15 (to_ull (depth - 1))))
    by (rewrite num_len_of_depth in Hnum; now inversion Hnum).
  exists arw. eexists. split; [exact Hnum|]. split; [exact Hrun|].
  cbn [w_out text]. rewrite Harw.
  assert (H63 : 2 ^ 63 < 2 ^ 64) by now vm_compute.
  assert (Hv : to_ull (depth - 1) < 2 ^ 64)
    by (unfold to_ull; apply Z.mod_pos_bound; lia).
  assert (Hlast : Z.to_nat depth <> 0%nat ->
                  0 + Z.of_nat (Z.to_nat depth) - 1 <= to_ull (depth - 1)).
  { intros Hn. unfold to_ull. unfold LLONG_MAX in Hd.
    rewrite Z.mod_small by lia. lia. }
  rewrite length_append, length_records;
    first [assumption | lia | rewrite Z2Nat.id by lia; lia].
Qed.

Lemma records_have_one_length_witness :
  exists addr_repr_width w',
    num_len (to_ull (2 - 1)) 16 = Done addr_repr_width
    /\ generate_mif_content zero_junk
         (mkWorld (plain_stream [1; 2; 3; 4; 5] StatOther)
                  (mkSink EmptyString None) [])
         2 16
       = Done (2, w')
    /\ Z.of_nat (String.length (text (w_out w')))
       = Z.of_nat (String.length EmptyString)
         + 2 * (addr_repr_width + 2 * (16 / 8) + 5).
Proof.
  apply (records_have_one_length zero_junk [1; 2; 3; 4; 5] StatOther EmptyString
                                 [] 2 16).
  - unfold UINT8_MAX. lia.
  - repeat constructor; unfold is_byte; lia.
  - unfold LLONG_MAX. lia.
  - vm_compute. discriminate.
Defined.

Lemma store_done (dest : list Z) (off : Z) (bs d : list Z) :
  store dest off bs = Done d ->
  d = splice dest off bs
  /\ (bs = [] \/ (0 <= off /\ off + len bs <= len dest)).
Proof.
  unfold store, splice. destruct bs as [|b bs].
  - intros E. inversion E. split; [|now left].
    cbn [app len List.length Z.of_nat]. rewrite Z.add_0_r.
    now rewrite firstn_skipn.
  - destruct (Z.leb_spec 0 off); [|discriminate].
    destruct (Z.leb_spec (off + len (b :: bs)) (len dest)); [|discriminate].
    intros E. inversion E. split; [reflexivity | right; lia].
Qed.

Lemma load_done (src : list Z) (n : Z) (bs : list Z) :
  load src n = Done bs -> bs = firstn (Z.to_nat n) src /\ len bs = Z.max 0 n.
Proof.
  unfold load. destruct (Z.leb_spec n 0).
  - intros E. inversion E. replace (Z.to_nat n) with 0%nat by lia.
    split; [reflexivity | cbn; lia].
  - destruct (Z.leb_spec n (len src)); [|discriminate].
    intros E. inversion E. split; [reflexivity|].
    unfold len in *. rewrite length_firstn. lia.
Qed.

(** [m] rounds that never find [words_read] at zero: the count is
    negative, or at least [m]. *)
Lemma drain_buffer_any (m : nat) :
  forall todo depth word_size addr_repr_width addr w f,
    1 <= word_size ->
    len (buffer f) = INPUT_BUFFER_SIZE * word_size ->
    Forall is_byte (buffer f) -> quota (w_out w) = None ->
    0 <= word_idx f -> word_idx f + Z.of_nat m <= INPUT_BUFFER_SIZE ->
    (words_read f < 0 \/ Z.of_nat m <= words_read f) ->
    content_loop (m + todo) depth word_size addr_repr_width addr w f
    = content_loop todo depth word_size addr_repr_width (addr + Z.of_nat m)
        (with_out w
           (mkSink (text (w_out w)
                    ++ records addr_repr_width word_size (buffer f) addr
                               (word_idx f) m)
                   None))
        (mkFrame (buffer f) (words_read f - Z.of_nat m) (put_aside_buffer f)
                 (remainder_len f) (word_idx f + Z.of_nat m)).
Proof.
  induction m as [|m IH];
    intros todo depth word_size arw addr w f Hw Hlen Hbytes Hq Hidx Hfit Hwr.
  - cbn [Nat.add records Z.of_nat]. rewrite append_nil_r, !Z.add_0_r, Z.sub_0_r.
    destruct w as [i [t q] e], f as [b wr p r ix]. cbn in *. now subst q.
  - cbn [Nat.add content_loop]. unfold content_round.
    destruct (Z.eqb_spec (words_read f) 0); [lia|].
    unfold emit_record.
    destruct (Z.eqb_spec (words_read f) 0); [lia|]. cbn [andb].
    unfold sys_dprintf at 1. rewrite Hq.
    rewrite emit_word_full by (first [lia | assumption | reflexivity]).
    cbn [bind text]. rewrite IH; cbn [buffer words_read word_idx w_out with_out
                                      quota text put_aside_buffer remainder_len];
      try assumption; try reflexivity; try lia.
    f_equal; [lia| |].
    + unfold with_out. cbn [w_in w_err]. do 2 f_equal.
      cbn [records]. now rewrite !append_assoc.
    + f_equal; lia.
Qed.

(** X21. For an input shorter than one word (width 16 or more,
    read in one call) and a depth of at most 128, [generate_mif_content]
    reports nothing and returns [depth]: it writes [depth] records taken
    from the buffer, which holds the input bytes followed by bytes that
    were never read. *)
Theorem input_shorter_than_a_word :
  forall j data st t err depth width,
    16 <= width <= UINT8_MAX -> Forall is_byte data ->
    0 < len data < width / 8 -> 1 <= depth <= INPUT_BUFFER_SIZE ->
    exists addr_repr_width buf,
      num_len (to_ull (depth - 1)) 16 = Done addr_repr_width
      /\ firstn (List.length data) buf = data
      /\ generate_mif_content j
           (mkWorld (plain_stream data st) (mkSink t None) err) depth width
         = Done (depth,
                 mkWorld (plain_stream [] st)
                   (mkSink (t ++ records addr_repr_width (width / 8) buf 0 0
                                    (Z.to_nat depth))
                           None)
                   err).
Proof.
  intros j data st t err depth width Hw Hdata Hlen Hd.
  destruct (word_size_of_width width ltac:(lia)) as [Hws Hrange].
  unfold INPUT_BUFFER_SIZE in Hd.
  set (ws := width / 8) in *.
  set (arw := Z.of_nat (ndigits 15 (to_ull (depth - 1)))).
  set (f0 := mkFrame (fresh_array (junk_buffer j) (INPUT_BUFFER_SIZE * ws)) 0
                     (fresh_array (junk_put_aside j) ws) 0 0).
  assert (Hblen : len (buffer f0) = 128 * ws)
    by (apply len_fresh_array; lia).
  assert (Hplen : len (put_aside_buffer f0) = ws)
    by (apply len_fresh_array; lia).
  assert (Hall : firstn (Z.to_nat (128 * ws)) data = data)
    by (apply firstn_all2; unfold len in *; lia).
  assert (Hread : sys_read (plain_stream data st) (128 * ws)
                  = (Some data, plain_stream (skipn (Z.to_nat (128 * ws)) data) st))
    by (rewrite plain_read, Hall; reflexivity).
  assert (Hfill := read_aligned_fresh_fill (plain_stream data st) _ (buffer f0)
                     128 ws (put_aside_buffer f0) data
                     ltac:(unfold UINT8_MAX in *; lia) ltac:(lia)
                     ltac:(unfold SSIZE_MAX; lia) Hblen Hplen Hread).
  destruct (fresh_fill_buffer (buffer f0) 128 ws (put_aside_buffer f0) data
              ltac:(lia) Hblen Hplen ltac:(lia)) as (Hdlen & _ & Hdbytes).
  specialize (Hdbytes (bytes_fresh_array _ _) (bytes_fresh_array _ _) Hdata).
  rewrite (Z.div_small (len data) ws), (Z.mod_small (len data) ws) in Hfill by lia.
  rewrite (Z.mod_small (len data) ws) in Hdlen, Hdbytes by lia.
  rewrite skipn_past in Hfill by lia.
  set (buf := splice (splice (buffer f0) 0 data) (128 * ws - len data)
                     (firstn (Z.to_nat (len data)) (put_aside_buffer f0))) in *.
  exists arw, buf. split; [apply num_len_of_depth|]. split.
  { unfold buf. rewrite firstn_splice_before.
    - rewrite firstn_splice_front by lia. now apply firstn_all.
    - rewrite len_splice; lia.
    - unfold len in *. lia. }
  unfold generate_mif_content. fold ws. rewrite Hws.
  rewrite signed64_in_range by (unfold LLONG_MIN, LLONG_MAX; lia).
  cbn [bind]. rewrite num_len_of_depth. cbn [bind]. fold arw f0.
  destruct (Z.to_nat depth) as [|todo] eqn:Etodo; [lia|].
  cbn [content_loop]. unfold content_round.
  change (words_read f0 =? 0) with true. cbv iota.
  change (remainder_len f0) with 0. cbn [w_in].
  unfold INPUT_BUFFER_SIZE at 1. rewrite Hfill. cbn [bind ra_ret ra_rem ra_in ra_dest].
  change (0 <? 0) with false. cbv iota.
  unfold emit_record. cbn [words_read remainder_len w_out buffer word_idx].
  destruct (Z.eqb_spec (len data) 0); [lia|].
  change ((0 =? 0) && false) with false. cbv iota.
  unfold sys_dprintf at 1. cbn [quota text].
  rewrite emit_word_full
    by (first [lia | assumption | reflexivity | unfold INPUT_BUFFER_SIZE; lia]).
  cbn [bind]. unfold with_out. cbn [w_in w_err put_aside_buffer].
  assert (Hsplit : content_loop todo = content_loop (todo + 0))
    by (f_equal; lia).
  rewrite Hsplit. clear Hsplit.
  rewrite drain_buffer_any;
    cbn [buffer words_read word_idx w_out quota text put_aside_buffer
         remainder_len with_out w_in w_err];
    try assumption; try reflexivity;
    try (unfold INPUT_BUFFER_SIZE; lia).
  cbn [content_loop]. unfold with_out. cbn [w_in w_err w_out text].
  do 4 f_equal. cbn [records]. now rewrite !append_assoc.
Qed.

Lemma input_shorter_than_a_word_witness :
  exists addr_repr_width buf,
    num_len (to_ull (3 - 1)) 16 = Done addr_repr_width
    /\ firstn (List.length [1]) buf = [1]
    /\ generate_mif_content zero_junk
         (mkWorld (plain_stream [1] StatOther) (mkSink EmptyString None) [])
         3 16
       = Done (3,
               mkWorld (plain_stream [] StatOther)
                 (mkSink (EmptyString ++ records addr_repr_width (16 / 8) buf 0 0
                                           (Z.to_nat 3))
                         None)
                 []).
Proof.
  apply (input_shorter_than_a_word zero_junk [1] StatOther EmptyString [] 3 16).
  - unfold UINT8_MAX. lia.
  - repeat constructor; unfold is_byte; lia.
  - vm_compute. split; reflexivity.
  - unfold INPUT_BUFFER_SIZE. lia.
Defined.

(** ** Descriptors *)

(** X22. On every path through the end of [main] the input descriptor is
    closed exactly once, and the output descriptor exactly once when it
    has a name or when the count returned differs from [depth], and not
    at all otherwise: no descriptor is closed twice. *)
Theorem descriptors_are_closed_once :
  forall c in_fd out_fd words_written w k,
    0 <= in_fd -> 0 <= out_fd ->
    close_calls (f_kernel (main_finish c in_fd out_fd words_written w k))
    = close_calls k
      ++ in_fd :: (if negb (words_written =? cfg_depth c)
                      || match cfg_out_filename c with
                         | Some _ => true
                         | None => false
                         end
                   then [out_fd] else []).
Proof.
  intros c in_fd out_fd ww w k Hin Hout. unfold main_finish.
  destruct (Z.eqb_spec ww (cfg_depth c)) as [He|Hne]; cbn [negb orb].
  - rewrite safe_close_open by lia.
    destruct (negb _); destruct (cfg_out_filename c) as [name|];
      try rewrite safe_close_open by lia;
      try destruct (negb _); cbn [f_kernel close_calls];
      now rewrite <- ?app_assoc.
  - rewrite !safe_close_open by lia.
    destruct (ww <? 0); [cbn; now rewrite <- app_assoc|].
    rewrite safe_close_closed. cbn [negb].
    destruct (cfg_out_filename c); [rewrite safe_close_closed|];
      cbn; now rewrite <- app_assoc.
Qed.

Lemma descriptors_are_closed_once_witness :
  close_calls (f_kernel (main_finish (mkConfig 4 8 "-" None) 0 1 3 drained_world
                                     quiet_kernel))
  = close_calls quiet_kernel
    ++ 0 :: (if negb (3 =? cfg_depth (mkConfig 4 8 "-" None))
                || match cfg_out_filename (mkConfig 4 8 "-" None) with
                   | Some _ => true
                   | None => false
                   end
             then [1] else []).
Proof.
  apply (descriptors_are_closed_once (mkConfig 4 8 "-" None) 0 1 3 drained_world
                                     quiet_kernel); lia.
Defined.

(** * Address width, read failures and narrow widths *)

(** ** The address field reads back *)

Lemma digit_value_char (d : Z) :
  0 <= d < 16 -> digit_value (digit_char d) = Some d.
Proof.
  intros Hd.
  assert (Hall : forallb (fun n => match digit_value (digit_char (Z.of_nat n)) with
                                   | Some v => v =? Z.of_nat n
                                   | None => false
                                   end) (seq 0 16) = true) by now vm_compute.
  rewrite forallb_forall in Hall. specialize (Hall (Z.to_nat d)).
  rewrite Z2Nat.id in Hall by lia.
  destruct (digit_value (digit_char d)) as [v|].
  - f_equal. apply Z.eqb_eq, Hall, in_seq. lia.
  - discriminate Hall. apply in_seq. lia.
Qed.

Lemma hex_value_zeros (n : nat) (s : string) :
  hex_value_from 0 (zeros n ++ s) = hex_value_from 0 s.
Proof. induction n as [|n IH]; [reflexivity | exact IH]. Qed.

(** The digits written for [v] read back as [v]. *)
Lemma hex_value_digits_loop (fuel : nat) :
  forall v acc,
    0 <= v < 16 ^ (Z.of_nat fuel + 1) ->
    hex_value_from 0 (digits_loop (S fuel) 16 v acc) = hex_value_from v acc.
Proof.
  induction fuel as [|fuel IH]; intros v acc Hv.
  - assert (Hq : v / 16 = 0) by (apply Z.div_small; simpl in Hv; lia).
    cbn [digits_loop]. rewrite Hq. cbn [Z.eqb hex_value_from].
    rewrite Z.mod_small by (simpl in Hv; lia).
    rewrite digit_value_char by (simpl in Hv; lia). reflexivity.
  - change (digits_loop (S (S fuel)) 16 v acc)
      with (if v / 16 =? 0 then String (digit_char (v mod 16)) acc
            else digits_loop (S fuel) 16 (v / 16)
                             (String (digit_char (v mod 16)) acc)).
    pose proof (Z.div_mod v 16 ltac:(lia)) as E.
    pose proof (Z.mod_pos_bound v 16 ltac:(lia)) as Hm.
    destruct (Z.eqb_spec (v / 16) 0) as [Hq|Hq].
    + cbn [hex_value_from]. rewrite digit_value_char by lia.
      do 2 f_equal. lia.
    + rewrite IH.
      * cbn [hex_value_from]. rewrite digit_value_char by lia.
        do 2 f_equal. lia.
      * replace (Z.of_nat (S fuel) + 1) with (Z.succ (Z.of_nat fuel + 1)) in Hv
          by lia.
        rewrite Z.pow_succ_r in Hv by lia.
        split; [apply Z.div_pos; lia | apply Z.div_lt_upper_bound; lia].
Qed.

Lemma digits_not_empty (v : Z) : digits 16 v <> EmptyString.
Proof.
  intros E. apply (f_equal String.length) in E. unfold digits in E.
  rewrite length_digits_loop in E. pose proof (ndigits_pos 63 v).
  cbn [String.length] in E. lia.
Qed.

Lemma hex_value_address (width addr : Z) :
  0 <= addr < 2 ^ 64 -> hex_value (fmt_0llx width addr) = Some addr.
Proof.
  intros Ha. unfold fmt_0llx, pad0.
  assert (Hau : to_ull addr = addr) by (unfold to_ull; apply Z.mod_small; lia).
  rewrite Hau.
  assert (Hne : (zeros (Z.to_nat width - String.length (digits 16 addr))
                 ++ digits 16 addr)%string <> EmptyString).
  { destruct (zeros _); [apply digits_not_empty | discriminate]. }
  unfold hex_value.
  destruct (zeros _ ++ digits 16 addr)%string eqn:E; [contradiction|].
  rewrite <- E, hex_value_zeros. unfold digits.
  rewrite hex_value_digits_loop; [reflexivity|].
  split; [lia|]. eapply Z.lt_le_trans; [apply Ha|]. now vm_compute.
Qed.

(** One round that finds a word in the buffer writes its record. *)
Lemma content_round_record (word_size addr_repr_width addr : Z) (w : world)
  (f : frame) :
  1 <= word_size ->
  len (buffer f) = INPUT_BUFFER_SIZE * word_size ->
  Forall is_byte (buffer f) -> quota (w_out w) = None ->
  words_read f <> 0 -> 0 <= word_idx f < INPUT_BUFFER_SIZE ->
  content_round word_size addr_repr_width addr w f
  = Done (Next
            (with_out w
               (mkSink (text (w_out w)
                        ++ fmt_0llx addr_repr_width addr ++ " : "
                        ++ format_word_bytes
                             (word_at (buffer f) word_size (word_idx f))
                        ++ ";" ++ nl)
                       None))
            (mkFrame (buffer f) (words_read f - 1) (put_aside_buffer f)
                     (remainder_len f) (word_idx f + 1))).
Proof.
  intros Hw Hlen Hbytes Hq Hwr Hidx. unfold content_round.
  destruct (Z.eqb_spec (words_read f) 0); [contradiction|].
  unfold emit_record.
  destruct (Z.eqb_spec (words_read f) 0); [contradiction|]. cbn [andb].
  unfold sys_dprintf at 1. rewrite Hq.
  rewrite emit_word_full by (first [lia | assumption | reflexivity]).
  cbn [bind text]. now rewrite !append_assoc.
Qed.

(** C7. For every depth of at least 1, [num_len (depth - 1, 16)] is the
    number of base-16 digits of [depth - 1]. [generate_mif_content]
    computes it once, before its loop, and runs the loop with that one
    value. At every address in [0, depth) the address field ["%0*llx"]
    has exactly that many characters, all of them hexadecimal digits,
    and reads back as the address (zeros in front, nothing cut off);
    every round of the loop that finds a word in the buffer writes that
    field, [" : "], the word and [";\n"]; and on an input holding at
    least [depth] whole words the output is the [depth] records with
    that one width. For depth 1 the width is 1, for depth 256 it is 2. *)
Theorem address_width_stable :
  forall depth, 1 <= depth <= LLONG_MAX ->
    exists width,
      num_len (to_ull (depth - 1)) 16 = Done width
      /\ depth - 1 < 16 ^ width
      /\ (width = 1 \/ 16 ^ (width - 1) <= depth - 1)
      /\ (forall addr, 0 <= addr < depth ->
            Z.of_nat (String.length (fmt_0llx width addr)) = width
            /\ hex_value (fmt_0llx width addr) = Some addr)
      /\ (forall addr word_size w f,
            0 <= addr < depth -> 1 <= word_size ->
            len (buffer f) = INPUT_BUFFER_SIZE * word_size ->
            Forall is_byte (buffer f) -> quota (w_out w) = None ->
            words_read f <> 0 -> 0 <= word_idx f < INPUT_BUFFER_SIZE ->
            content_round word_size width addr w f
            = Done (Next
                      (with_out w
                         (mkSink (text (w_out w)
                                  ++ fmt_0llx width addr ++ " : "
                                  ++ format_word_bytes
                                       (word_at (buffer f) word_size (word_idx f))
                                  ++ ";" ++ nl)
                                 None))
                      (mkFrame (buffer f) (words_read f - 1) (put_aside_buffer f)
                               (remainder_len f) (word_idx f + 1))))
      /\ (forall j data st t err wd,
            8 <= wd <= UINT8_MAX -> Forall is_byte data ->
            depth * (wd / 8) <= len data ->
            exists k,
              generate_mif_content j
                (mkWorld (plain_stream data st) (mkSink t None) err) depth wd
              = Done (depth,
                      mkWorld (plain_stream (skipn k data) st)
                        (mkSink (t ++ records width (wd / 8) data 0 0
                                         (Z.to_nat depth))
                                None)
                        err))
      /\ (forall j w wd,
            generate_mif_content j w depth wd
            = content_loop (Z.to_nat depth) depth (to_byte (Z.quot wd 8)) width 0 w
                (mkFrame (fresh_array (junk_buffer j)
                                      (INPUT_BUFFER_SIZE * to_byte (Z.quot wd 8)))
                         0
                         (fresh_array (junk_put_aside j) (to_byte (Z.quot wd 8)))
                         0 0))
      /\ num_len (to_ull (1 - 1)) 16 = Done 1
      /\ num_len (to_ull (256 - 1)) 16 = Done 2.
Proof.
  intros depth [Hlo Hhi]. unfold LLONG_MAX in Hhi.
  assert (H63 : 2 ^ 63 < 2 ^ 64) by now vm_compute.
  assert (Hv : 0 <= depth - 1 < 2 ^ 64) by lia.
  assert (Hull : to_ull (depth - 1) = depth - 1)
    by (unfold to_ull; apply Z.mod_small; exact Hv).
  exists (Z.of_nat (ndigits 15 (depth - 1))).
  assert (Hnum : num_len (to_ull (depth - 1)) 16
                 = Done (Z.of_nat (ndigits 15 (depth - 1))))
    by (rewrite Hull; apply num_len_16; exact Hv).
  destruct (ndigits_bounds 15 (depth - 1)) as [Hup Hlow].
  { split; [lia|]. eapply Z.lt_le_trans; [apply Hv|]. now vm_compute. }
  split; [exact Hnum|]. split; [exact Hup|].
  split; [destruct Hlow as [H1|Hlow]; [left; now rewrite H1 | now right]|].
  split; [|split; [|split; [|split; [|split]]]].
  - intros addr Ha. split.
    + rewrite length_address_field by lia. reflexivity.
    + apply hex_value_address. lia.
  - intros addr word_size w f _ Hw Hlen Hbytes Hq Hwr Hidx.
    now apply content_round_record.
  - intros j data st t err wd Hwd Hdata Hfit.
    destruct (word_size_of_width wd Hwd) as [_ Hrange].
    assert (Hq : depth <= len data / (wd / 8))
      by (apply Z.div_le_lower_bound; lia).
    destruct (generate_mif_content_plain j data st t err depth wd Hwd Hdata
                ltac:(unfold LLONG_MAX; lia) (or_introl Hq))
      as (k & arw & Hnum' & Hrun & _).
    rewrite Hnum in Hnum'. inversion Hnum'; subst arw.
    exists k. rewrite Hrun, Z.min_l by lia.
    destruct (Z.leb_spec depth (len data / (wd / 8))); [reflexivity|lia].
  - intros j w wd. unfold generate_mif_content.
    rewrite signed64_in_range by (unfold LLONG_MIN, LLONG_MAX; lia).
    cbn [bind]. rewrite Hnum. reflexivity.
  - now vm_compute.
  - now vm_compute.
Qed.

Lemma address_width_stable_witness :
  exists width,
    num_len (to_ull (256 - 1)) 16 = Done width
    /\ (forall addr, 0 <= addr < 256 ->
          Z.of_nat (String.length (fmt_0llx width addr)) = width
          /\ hex_value (fmt_0llx width addr) = Some addr).
Proof.
  destruct (address_width_stable 256) as (width & Hn & _ & _ & Hlen & _).
  - unfold LLONG_MAX. lia.
  - exists width. split; [exact Hn | exact Hlen].
Defined.

(** ** Widths below 8 *)

Lemma narrow_width_faults (j : junk) (w : world) (depth width : Z) :
  0 <= width < 8 -> 1 <= depth <= LLONG_MAX ->
  hd_error (script (w_in w)) <> Some RdError ->
  generate_mif_content j w depth width = Fault DivisionByZero.
Proof.
  intros Hw Hd Hscript. unfold LLONG_MAX in Hd.
  assert (H63 : 2 ^ 63 < 2 ^ 64) by now vm_compute.
  unfold generate_mif_content.
  rewrite (Z.quot_small width 8) by lia.
  change (to_byte 0) with 0.
  rewrite signed64_in_range by (unfold LLONG_MIN, LLONG_MAX; lia).
  cbn [bind]. rewrite num_len_of_depth. cbn [bind].
  destruct (Z.to_nat depth) as [|todo] eqn:E; [lia|].
  cbn [content_loop]. unfold content_round. cbn [words_read].
  change (0 =? 0) with true. cbv iota.
  cbn [w_in buffer put_aside_buffer remainder_len].
  rewrite read_aligned_zero_word_size by exact Hscript. reflexivity.
Qed.

Lemma str_to_byte_number (width : Z) :
  0 <= width <= UINT8_MAX -> str_to_byte (number width) = inr width.
Proof.
  unfold UINT8_MAX. intros Hw. unfold str_to_byte, number, UINT8_MAX.
  cbn [st_all st_num negb].
  destruct (Z.ltb_spec width 0); [lia|].
  destruct (Z.ltb_spec 255 width); [lia|]. cbn [orb].
  unfold to_byte. now rewrite Z.mod_small by lia.
Qed.

(** C9, as the code has it. No operation checks that the width is a
    positive multiple of 8: [main] hands any byte to the generator, and
    [generate_mif_content] computes [word_size = width / 8] and passes
    it to [read_aligned]. The division and modulo by [word_size] and the
    two arrays sized by it are well defined only for a width of 8 or
    more: from 8 on the word size is at least 1 and a first fill
    returns; for every width in [1, 7] the word size is 0, the arrays
    have no element, and every run of the emitter with a depth of at
    least 1 whose first read does not fail reaches the division by zero
    (with depth 0, or when the first read fails, nothing is divided).
    For every width the emitter behaves as for the multiple of 8 below
    it, [8 * (width / 8)]. *)
Theorem narrow_width_divides_by_zero :
  (forall j w depth width,
      1 <= width <= 7 -> 1 <= depth <= LLONG_MAX ->
      hd_error (script (w_in w)) <> Some RdError ->
      generate_mif_content j w depth width = Fault DivisionByZero)
  /\ (forall j width,
        1 <= width <= 7 ->
        to_byte (Z.quot width 8) = 0
        /\ fresh_array (junk_buffer j)
                       (INPUT_BUFFER_SIZE * to_byte (Z.quot width 8)) = []
        /\ fresh_array (junk_put_aside j) (to_byte (Z.quot width 8)) = [])
  /\ (forall j fd width,
        8 <= width <= UINT8_MAX ->
        1 <= to_byte (Z.quot width 8)
        /\ len (fresh_array (junk_buffer j)
                            (INPUT_BUFFER_SIZE * to_byte (Z.quot width 8)))
           = INPUT_BUFFER_SIZE * to_byte (Z.quot width 8)
        /\ len (fresh_array (junk_put_aside j) (to_byte (Z.quot width 8)))
           = to_byte (Z.quot width 8)
        /\ exists out,
            read_aligned fd
              (fresh_array (junk_buffer j)
                           (INPUT_BUFFER_SIZE * to_byte (Z.quot width 8)))
              INPUT_BUFFER_SIZE (to_byte (Z.quot width 8))
              (fresh_array (junk_put_aside j) (to_byte (Z.quot width 8))) 0
            = Done out)
  /\ (forall j w depth width,
        generate_mif_content j w depth width
        = generate_mif_content j w depth (8 * Z.quot width 8))
  /\ (forall width, 0 <= width ->
        8 * Z.quot width 8 <= width < 8 * Z.quot width 8 + 8)
  /\ (forall m t width depth,
        1 <= width <= 7 -> 1 <= depth -> depth * width <= LLONG_MAX ->
        stat (m_stdin m) = StatOther ->
        hd_error (script (m_stdin m)) <> Some RdError ->
        m_stdout m = mkSink t None ->
        main m [OptWidth (number width); OptDepth (number depth)] []
        = Fault DivisionByZero).
Proof.
  split; [|split; [|split; [|split; [|split]]]].
  - intros j w depth width Hw Hd Hscript.
    apply narrow_width_faults; first [assumption | lia].
  - intros j width Hw. rewrite (Z.quot_small width 8) by lia.
    repeat split.
  - intros j fd width Hw.
    destruct (word_size_of_width width Hw) as [Hws Hrange].
    rewrite Hws. unfold INPUT_BUFFER_SIZE.
    split; [lia|]. split; [apply len_fresh_array; lia|].
    split; [apply len_fresh_array; lia|].
    apply read_aligned_fresh_carry_returns;
      first [ apply len_fresh_array; lia
            | unfold UINT8_MAX, SSIZE_MAX; lia ].
  - intros j w depth width. unfold generate_mif_content.
    rewrite (Z.mul_comm 8), Z.quot_mul by lia. reflexivity.
  - intros width Hw.
    rewrite Z.quot_div_nonneg by lia.
    pose proof (Z.div_mod width 8 ltac:(lia)).
    pose proof (Z.mod_pos_bound width 8 ltac:(lia)). lia.
  - intros m t width depth Hw Hd Hmax Hstat Hscript Hout.
    unfold main. cbn [parse_options].
    rewrite str_to_byte_number by (unfold UINT8_MAX; lia).
    cbn [str_to_ll number st_all st_erange st_num negb default_config
         cfg_depth cfg_width cfg_in_filename cfg_out_filename parse_options
         parse_operands].
    change (negb ("-" =? "-")%string) with false. cbv iota.
    rewrite Hout. unfold generate_mif.
    rewrite validate_explicit
      by (first [lia | cbn [w_in]; left; exact Hstat | assumption]).
    cbn [bind w_out]. rewrite header_written. cbn [negb].
    rewrite narrow_width_faults; [reflexivity | lia | | exact Hscript].
    unfold LLONG_MAX in *. nia.
Qed.

Lemma narrow_width_divides_by_zero_witness :
  generate_mif_content zero_junk
    (mkWorld (plain_stream [1; 2] StatOther) open_sink []) 1 4
  = Fault DivisionByZero
  /\ main (pipe_machine [1; 2]) [OptWidth (number 4); OptDepth (number 1)] []
     = Fault DivisionByZero.
Proof.
  split.
  - apply (proj1 narrow_width_divides_by_zero).
    + lia.
    + unfold LLONG_MAX. lia.
    + simpl. discriminate.
  - apply (proj2 (proj2 (proj2 (proj2 (proj2 narrow_width_divides_by_zero))))
             (pipe_machine [1; 2]) EmptyString).
    + lia.
    + lia.
    + unfold LLONG_MAX. lia.
    + reflexivity.
    + simpl. discriminate.
    + reflexivity.
Defined.

(** C9 as stated fails: with width 4 and depth 1 on an input whose
    first read fails the emitter returns 0 after the diagnostic and
    divides nothing, and with width 4 and depth 0 it returns 0 and
    divides nothing. *)
Lemma narrow_width_no_division_cex :
  generate_mif_content zero_junk
    (mkWorld (mkStream [1; 2] [RdError] StatOther) open_sink []) 1 4
  = Done (0, mkWorld (plain_stream [1; 2] StatOther) open_sink [WarnRead])
  /\ generate_mif_content zero_junk
       (mkWorld (mkStream [1; 2] [RdError] StatOther) open_sink []) 1 4
     <> Fault DivisionByZero
  /\ generate_mif_content zero_junk
       (mkWorld (plain_stream [1; 2] StatOther) open_sink []) 0 4
     = Done (0, mkWorld (plain_stream [1; 2] StatOther) open_sink []).
Proof.
  split; [now vm_compute|]. split; [vm_compute; discriminate | now vm_compute].
Qed.

(** ** A failed read *)

(** C4 fails on the code. [generate_mif] and [main] test the count they
    get for being negative, but [generate_mif_content] has no negative
    return: in every round of its loop, if the refill by [read_aligned]
    fails, it returns at once, writing nothing more, and the value is
    the current address, the value a clean early stop at that address
    returns; for a depth of 0 or more it never returns a negative value.
    On an input whose first read fails, with depth 2 and width 16, it
    returns 0, and the whole program writes the header and ["END;"] and
    ends with status 0. *)
Theorem read_failure_returns_address :
  (forall todo depth word_size addr_repr_width addr w f r,
      words_read f = 0 ->
      read_aligned (w_in w) (buffer f) INPUT_BUFFER_SIZE word_size
                   (put_aside_buffer f) (remainder_len f) = Done r ->
      ra_ret r < 0 ->
      content_loop (S todo) depth word_size addr_repr_width addr w f
      = Done (addr, warn (mkWorld (ra_in r) (w_out w) (w_err w)) WarnRead))
  /\ (forall j w depth width v w',
        0 <= depth ->
        generate_mif_content j w depth width = Done (v, w') ->
        0 <= v <= depth)
  /\ generate_mif_content zero_junk failing_world 2 16
     = Done (0, warn (mkWorld (mkStream [1; 2; 3; 4] [] StatOther) open_sink [])
                     WarnRead)
  /\ main (mkMachine (mkStream [1; 2; 3; 4] [RdError] StatOther) open_sink
                     (fun _ => None) (fun _ => None) quiet_kernel zero_junk)
          [OptWidth (number 16); OptDepth (number 2)] []
     = Done (mkFinished EXIT_SUCCESS
               (mkWorld (mkStream [1; 2; 3; 4] [] StatOther)
                        (mkSink (header_text 2 16 ++ "END;" ++ nl) None)
                        [WarnRead])
               (mkKernel (fun _ => false) [STDIN_FILENO; STDOUT_FILENO])).
Proof.
  split; [|split; [|split]].
  - intros todo depth word_size addr_repr_width addr w f r Hwr Hfill Hret.
    apply content_loop_round. unfold content_round.
    rewrite Hwr. change (0 =? 0) with true. cbv iota.
    rewrite Hfill. cbn [bind].
    destruct (Z.ltb_spec (ra_ret r) 0); [reflexivity | lia].
  - intros j w depth width v w' Hd H. unfold generate_mif_content in H.
    open_bind H. open_bind H.
    apply content_loop_range in H; lia.
  - now vm_compute.
  - now vm_compute.
Qed.

Lemma read_failure_returns_address_witness :
  content_loop 2 2 2 1 0 failing_world failing_frame
  = Done (0, warn (mkWorld (ra_in failing_fill) (w_out failing_world)
                           (w_err failing_world)) WarnRead).
Proof.
  apply (proj1 read_failure_returns_address 1%nat 2 2 1 0
               failing_world failing_frame failing_fill).
  - reflexivity.
  - vm_compute. reflexivity.
  - simpl. lia.
Defined.

(** * Further properties of fills, files and output *)

(** ** A fill with a pending carry *)

(** X20. A call of [read_aligned] with a carry of [r] bytes pending
    ([0 < r < word_size]) on arrays of the declared sizes first copies
    the first [r] bytes of [put_aside] to the start of the buffer and
    asks for [nwords * word_size - r] bytes behind them. If the read
    fails the call returns -1 and the carry stays [r]. If the carry and
    the bytes read make whole words, it returns their number, the new
    carry is empty, and the buffer holds the carry followed by the bytes
    read. In every other case the last [memcpy] is aimed at the
    [(r + len bs) mod word_size] bytes that end [r] bytes behind the end
    of the buffer: the call writes outside the array. *)
Theorem fill_with_pending_carry :
  forall fd dest nwords word_size put_aside r,
    1 <= word_size <= UINT8_MAX -> 1 <= nwords ->
    nwords * word_size <= SSIZE_MAX ->
    len dest = nwords * word_size -> len put_aside = word_size ->
    0 < r < word_size ->
    (forall fd',
        sys_read fd (nwords * word_size - r) = (None, fd') ->
        read_aligned fd dest nwords word_size put_aside r
        = Done (mkRa (-1) (splice dest 0 (firstn (Z.to_nat r) put_aside)) r fd'))
    /\ (forall bs fd',
          sys_read fd (nwords * word_size - r) = (Some bs, fd') ->
          (r + len bs) mod word_size = 0 ->
          read_aligned fd dest nwords word_size put_aside r
          = Done (mkRa ((r + len bs) / word_size)
                       (splice (splice dest 0 (firstn (Z.to_nat r) put_aside)) r bs)
                       0 fd')
          /\ firstn (Z.to_nat (r + len bs))
                    (splice (splice dest 0 (firstn (Z.to_nat r) put_aside)) r bs)
             = firstn (Z.to_nat r) put_aside ++ bs)
    /\ (forall bs fd',
          sys_read fd (nwords * word_size - r) = (Some bs, fd') ->
          (r + len bs) mod word_size <> 0 ->
          read_aligned fd dest nwords word_size put_aside r = Fault OutOfBounds
          /\ exists dest2,
               store (splice dest 0 (firstn (Z.to_nat r) put_aside)) r bs
               = Done dest2
               /\ len dest2 = len dest
               /\ memcpy dest2 (r + nwords * word_size - (r + len bs) mod word_size)
                         put_aside ((r + len bs) mod word_size)
                  = Fault OutOfBounds).
Proof.
  unfold UINT8_MAX, SSIZE_MAX.
  intros fd dest nwords ws pa r Hw Hn Hmax Hdest Hpa Hr.
  set (carried := splice dest 0 (firstn (Z.to_nat r) pa)).
  assert (H64 : 2 ^ 63 - 1 < 2 ^ 64) by now vm_compute.
  assert (Hnb : to_size_t (nwords * ws) = nwords * ws)
    by (unfold to_size_t; apply Z.mod_small; nia).
  assert (Hcnt : to_size_t (nwords * ws - r) = nwords * ws - r)
    by (unfold to_size_t; apply Z.mod_small; nia).
  assert (Hk : len (firstn (Z.to_nat r) pa) = r)
    by (unfold len in *; rewrite length_firstn; lia).
  assert (Hc : len carried = len dest) by (apply len_splice; nia).
  assert (Hhead : read_aligned fd dest nwords ws pa r
                  = (let '(got, fd') := sys_read fd (nwords * ws - r) in
                     match got with
                     | None => Done (mkRa (-1) carried r fd')
                     | Some bs =>
                       dest2 <- store carried r bs ;;
                       bytes_read <- signed64 (len bs + r) ;;
                       words_read <- c_div bytes_read ws ;;
                       rm <- c_mod bytes_read ws ;;
                       dest3 <- memcpy dest2 (r + nwords * ws - to_byte rm) pa
                                       (to_byte rm) ;;
                       Done (mkRa words_read dest3 (to_byte rm) fd')
                     end)).
  { unfold read_aligned. destruct (Z.ltb_spec 0 r); [|lia].
    rewrite Hnb, Hcnt. unfold memcpy at 1.
    rewrite load_firstn by lia. cbn [bind].
    rewrite store_splice by nia. cbn [bind]. reflexivity. }
  split; [|split].
  - intros fd' Hread. rewrite Hhead, Hread. reflexivity.
  - intros bs fd' Hread Hal.
    pose proof (sys_read_bound _ _ _ _ Hread ltac:(nia)) as Hbs.
    pose proof (len_nonneg bs) as Hbs0.
    assert (Hne : bs <> []).
    { intros ->. cbn in Hal. rewrite Z.add_0_r, Z.mod_small in Hal by lia. lia. }
    split.
    + rewrite Hhead, Hread.
      rewrite store_splice by lia. cbn [bind].
      rewrite signed64_in_range by (unfold LLONG_MIN, LLONG_MAX; lia).
      cbn [bind]. unfold c_div, c_mod.
      destruct (Z.eqb_spec ws 0); [lia|]. cbn [bind].
      rewrite Z.quot_div_nonneg, Z.rem_mod_nonneg by lia.
      rewrite (Z.add_comm (len bs) r), Hal.
      change (to_byte 0) with 0. unfold memcpy.
      change (load pa 0) with (Done (@nil Z)). cbn [bind store]. reflexivity.
    + unfold splice at 1.
      assert (Hf : List.length (firstn (Z.to_nat r) carried) = Z.to_nat r)
        by (rewrite length_firstn; unfold len in *; lia).
      rewrite app_assoc, firstn_app_le
        by (rewrite length_app, Hf; unfold len in *; lia).
      rewrite firstn_all2 by (rewrite length_app, Hf; unfold len in *; lia).
      f_equal. unfold carried.
      rewrite firstn_splice_front by (unfold len in Hk; lia).
      rewrite firstn_firstn. f_equal. lia.
  - intros bs fd' Hread Hal.
    pose proof (sys_read_bound _ _ _ _ Hread ltac:(nia)) as Hbs.
    pose proof (len_nonneg bs) as Hbs0.
    pose proof (Z.mod_pos_bound (r + len bs) ws ltac:(lia)) as Hm.
    set (rm := (r + len bs) mod ws) in *.
    assert (Hst : exists dest2, store carried r bs = Done dest2
                                /\ len dest2 = len dest).
    { destruct bs as [|b bs'].
      - exists carried. split; [reflexivity | exact Hc].
      - exists (splice carried r (b :: bs')). split.
        + apply store_splice; lia.
        + rewrite len_splice; lia. }
    destruct Hst as (dest2 & Hst & Hd2).
    assert (Hover : memcpy dest2 (r + nwords * ws - rm) pa rm = Fault OutOfBounds).
    { unfold memcpy. rewrite load_firstn by lia. cbn [bind].
      assert (Hl : len (firstn (Z.to_nat rm) pa) = rm)
        by (unfold len in *; rewrite length_firstn; lia).
      unfold store.
      destruct (firstn (Z.to_nat rm) pa) as [|x xs] eqn:E;
        [cbn in Hl; lia|].
      destruct (Z.leb_spec (r + nwords * ws - rm + len (x :: xs)) (len dest2));
        [lia|].
      rewrite andb_false_r. reflexivity. }
    split; [|exists dest2; now repeat split].
    rewrite Hhead, Hread, Hst. cbn [bind].
    rewrite signed64_in_range by (unfold LLONG_MIN, LLONG_MAX; lia).
    cbn [bind]. unfold c_div, c_mod.
    destruct (Z.eqb_spec ws 0); [lia|]. cbn [bind].
    rewrite Z.quot_div_nonneg, Z.rem_mod_nonneg by lia.
    rewrite (Z.add_comm (len bs) r). fold rm.
    unfold to_byte. rewrite (Z.mod_small _ 256) by lia.
    rewrite Hover. reflexivity.
Qed.

Lemma fill_with_pending_carry_witness :
  (read_aligned (mkStream [4] [RdError] StatOther) (repeat 0 256) 128 2 [7; 9] 1
   = Done (mkRa (-1) (splice (repeat 0 256) 0 (firstn (Z.to_nat 1) [7; 9])) 1
                (mkStream [4] [] StatOther)))
  /\ (read_aligned (plain_stream [4; 5; 6] StatOther) (repeat 0 256) 128 2 [7; 9] 1
      = Done (mkRa ((1 + len [4; 5; 6]) / 2)
                   (splice (splice (repeat 0 256) 0 (firstn (Z.to_nat 1) [7; 9]))
                           1 [4; 5; 6])
                   0 (plain_stream [] StatOther))
      /\ firstn (Z.to_nat (1 + len [4; 5; 6]))
                (splice (splice (repeat 0 256) 0 (firstn (Z.to_nat 1) [7; 9]))
                        1 [4; 5; 6])
         = firstn (Z.to_nat 1) [7; 9] ++ [4; 5; 6])
  /\ (read_aligned (plain_stream [4; 5] StatOther) (repeat 0 256) 128 2 [7; 9] 1
      = Fault OutOfBounds
      /\ exists dest2,
           store (splice (repeat 0 256) 0 (firstn (Z.to_nat 1) [7; 9])) 1 [4; 5]
           = Done dest2
           /\ len dest2 = len (repeat 0 256)
           /\ memcpy dest2 (1 + 128 * 2 - (1 + len [4; 5]) mod 2) [7; 9]
                     ((1 + len [4; 5]) mod 2)
              = Fault OutOfBounds).
Proof.
  assert (Hw : 1 <= 2 <= UINT8_MAX) by (unfold UINT8_MAX; lia).
  assert (Hn : 1 <= 128) by lia.
  assert (Hmax : 128 * 2 <= SSIZE_MAX) by (unfold SSIZE_MAX; lia).
  assert (Hdest : len (repeat 0 256) = 128 * 2) by reflexivity.
  assert (Hpa : len [7; 9] = 2) by reflexivity.
  assert (Hr : 0 < 1 < 2) by lia.
  split; [|split].
  - apply (proj1 (fill_with_pending_carry (mkStream [4] [RdError] StatOther)
                    (repeat 0 256) 128 2 [7; 9] 1 Hw Hn Hmax Hdest Hpa Hr)
                 (mkStream [4] [] StatOther)).
    reflexivity.
  - apply (proj1 (proj2 (fill_with_pending_carry (plain_stream [4; 5; 6] StatOther)
                    (repeat 0 256) 128 2 [7; 9] 1 Hw Hn Hmax Hdest Hpa Hr))
                 [4; 5; 6] (plain_stream [] StatOther)).
    + reflexivity.
    + reflexivity.
  - apply (proj2 (proj2 (fill_with_pending_carry (plain_stream [4; 5] StatOther)
                    (repeat 0 256) 128 2 [7; 9] 1 Hw Hn Hmax Hdest Hpa Hr))
                 [4; 5] (plain_stream [] StatOther)).
    + reflexivity.
    + vm_compute. discriminate.
Defined.

(** ** Files that cannot be opened *)

(** X23. Whatever options and operands are accepted: when the input
    is a named file that cannot be opened, [main] ends with
    [FILE_OPEN_FAILURE] and closes nothing; when the input is there
    (standard input, or a named file that opens as descriptor 3) and the
    named output cannot be opened, [main] ends with [FILE_OPEN_FAILURE]
    after closing the input's descriptor. Nothing is read or written in
    either case. *)
Theorem open_failure_releases_the_input :
  forall m opts operands c0 c,
    parse_options opts default_config = inr c0 ->
    parse_operands operands c0 = inr c ->
    (cfg_in_filename c <> "-"%string ->
     m_open_in m (cfg_in_filename c) = None ->
     main m opts operands
     = Done (mkFinished FILE_OPEN_FAILURE
               (mkWorld (m_stdin m) (m_stdout m) [ErrMessage FILE_OPEN_FAILURE])
               (m_kernel m)))
    /\ (forall name,
          cfg_out_filename c = Some name -> m_open_out m name = None ->
          (cfg_in_filename c = "-"%string
           \/ m_open_in m (cfg_in_filename c) <> None) ->
          main m opts operands
          = Done (mkFinished FILE_OPEN_FAILURE
                    (mkWorld (m_stdin m) (m_stdout m)
                             [ErrMessage FILE_OPEN_FAILURE])
                    (mkKernel (close_error (m_kernel m))
                              (close_calls (m_kernel m)
                               ++ [(if (cfg_in_filename c =? "-")%string
                                    then STDIN_FILENO else 3)])))).
Proof.
  intros m opts operands c0 c Hopts Hoperands. split.
  - intros Hname Hopen. unfold main. rewrite Hopts, Hoperands.
    apply String.eqb_neq in Hname. rewrite Hname, Hopen. reflexivity.
  - intros name Hout Hopen Hin. unfold main. rewrite Hopts, Hoperands.
    rewrite Hout, Hopen.
    destruct (String.eqb_spec (cfg_in_filename c) "-") as [He|Hne]; cbn [negb].
    + rewrite safe_close_open by (unfold STDIN_FILENO; lia). reflexivity.
    + destruct Hin as [Hin|Hin]; [contradiction|].
      destruct (m_open_in m (cfg_in_filename c)); [|contradiction].
      rewrite safe_close_open by lia. reflexivity.
Qed.

Lemma open_failure_releases_the_input_witness :
  (main (pipe_machine [1; 2]) [OptDepth (number 2)] ["in.bin"%string]
   = Done (mkFinished FILE_OPEN_FAILURE
             (mkWorld (m_stdin (pipe_machine [1; 2])) (m_stdout (pipe_machine [1; 2]))
                      [ErrMessage FILE_OPEN_FAILURE])
             (m_kernel (pipe_machine [1; 2]))))
  /\ (main (disk_machine [1; 2]) [OptOutput "out.mif"] ["in.bin"%string]
      = Done (mkFinished FILE_OPEN_FAILURE
                (mkWorld (m_stdin (disk_machine [1; 2]))
                         (m_stdout (disk_machine [1; 2]))
                         [ErrMessage FILE_OPEN_FAILURE])
                (mkKernel (close_error (m_kernel (disk_machine [1; 2])))
                          (close_calls (m_kernel (disk_machine [1; 2]))
                           ++ [(if (cfg_in_filename
                                      (mkConfig (-1) 8 "in.bin"
                                                (Some "out.mif"%string))
                                    =? "-")%string
                                then STDIN_FILENO else 3)]))))
  /\ (main (pipe_machine [1; 2]) [OptOutput "out.mif"] []
      = Done (mkFinished FILE_OPEN_FAILURE
                (mkWorld (m_stdin (pipe_machine [1; 2]))
                         (m_stdout (pipe_machine [1; 2]))
                         [ErrMessage FILE_OPEN_FAILURE])
                (mkKernel (close_error (m_kernel (pipe_machine [1; 2])))
                          (close_calls (m_kernel (pipe_machine [1; 2]))
                           ++ [(if (cfg_in_filename
                                      (mkConfig (-1) 8 "-"
                                                (Some "out.mif"%string))
                                    =? "-")%string
                                then STDIN_FILENO else 3)])))).
Proof.
  split; [|split].
  - apply (proj1 (open_failure_releases_the_input (pipe_machine [1; 2])
                    [OptDepth (number 2)] ["in.bin"%string]
                    (mkConfig 2 8 "-" None) (mkConfig 2 8 "in.bin" None)
                    eq_refl eq_refl)).
    + discriminate.
    + reflexivity.
  - apply (proj2 (open_failure_releases_the_input (disk_machine [1; 2])
                    [OptOutput "out.mif"] ["in.bin"%string]
                    (mkConfig (-1) 8 "-" (Some "out.mif"%string))
                    (mkConfig (-1) 8 "in.bin" (Some "out.mif"%string))
                    eq_refl eq_refl) "out.mif"%string).
    + reflexivity.
    + reflexivity.
    + right. discriminate.
  - apply (proj2 (open_failure_releases_the_input (pipe_machine [1; 2])
                    [OptOutput "out.mif"] []
                    (mkConfig (-1) 8 "-" (Some "out.mif"%string))
                    (mkConfig (-1) 8 "-" (Some "out.mif"%string))
                    eq_refl eq_refl) "out.mif"%string).
    + reflexivity.
    + reflexivity.
    + left. reflexivity.
Defined.

(** ** What a run leaves in the output *)







